(** * tomodex lending pipeline: subscription registry, dispatcher,
      change-stream mapping, bulk aggregator and broker glue.

    Shallow embedding of [ws/lending_markets.go] (the registry) and of the
    lending order service ([HandleLendingOrderResponse], [HandleDocumentType],
    [HandleLendingOrdersCreateCancel], [saveBulkLendingOrders],
    [processBulkLendingOrders]).  Go maps are finite maps, pointers that may be
    nil are options, calls to collaborators are events of a trace. *)

From Stdlib Require Import Ascii.
From stdpp Require Import gmap strings list fin_maps pretty.

(** ** The subscription registry ([ws/lending_markets.go]) *)

Module Registry.

(** A [*Client]: [None] is the nil pointer, [Some k] the client object [k]. *)
Abbreviation ClientPtr := (option nat).

(** [LendingMarketsSocket]: the forward index [subscriptions] and the inverse
    index [subscriptionsList].  A key that is absent reads as nil (inner map,
    slice) or false (flag), as in Go. *)
Record LendingMarketsSocket : Type := mkSocket {
  subscriptions : gmap string (gmap ClientPtr bool);
  subscriptionsList : gmap ClientPtr (list string)
}.

Definition NewLendingMarketsSocket : LendingMarketsSocket :=
  {| subscriptions := ∅; subscriptionsList := ∅ |}.

(** [Subscribe]: the error is returned next to the registry (unchanged for a
    nil connection). *)
Definition Subscribe (channelID : string) (c : ClientPtr)
    (s : LendingMarketsSocket) : option string * LendingMarketsSocket :=
  match c with
  | None => (Some "No connection found", s)
  | Some _ =>
      let inner : gmap ClientPtr bool := default ∅ (subscriptions s !! channelID) in
      let subs' := <[channelID := <[c := true]> inner]> (subscriptions s) in
      let ids : list string := default [] (subscriptionsList s !! c) in
      (None, {| subscriptions := subs';
                subscriptionsList := <[c := ids ++ [channelID]]> (subscriptionsList s) |})
  end.

(** [s.subscriptions[channelID][c]]: false when the channel or the
    connection is absent. *)
Definition flag (channelID : string) (c : ClientPtr)
    (s : LendingMarketsSocket) : bool :=
  default false (default ∅ (subscriptions s !! channelID) !! c).

(** [UnsubscribeChannel]: the flag is set to false, then the key deleted. *)
Definition UnsubscribeChannel (channelID : string) (c : ClientPtr)
    (s : LendingMarketsSocket) : LendingMarketsSocket :=
  if flag channelID c s then
    let inner : gmap ClientPtr bool := default ∅ (subscriptions s !! channelID) in
    let inner1 := <[c := false]> inner in
    {| subscriptions := <[channelID := delete c inner1]> (subscriptions s);
       subscriptionsList := subscriptionsList s |}
  else s.

(** [Unsubscribe]: every channel id listed for [c] is unsubscribed, in the
    order of the slice. *)
Definition Unsubscribe (c : ClientPtr) (s : LendingMarketsSocket)
    : LendingMarketsSocket :=
  match subscriptionsList s !! c with
  | None => s
  | Some channelIDs =>
      foldl (fun acc id => UnsubscribeChannel id c acc) s channelIDs
  end.

(** [BroadcastMessage]: the UPDATE messages sent, one [(connection, payload)]
    per entry of the channel whose flag is true.  Go ranges over the map in
    an unspecified order; the order of this list is the one of
    [map_to_list] and carries no meaning. *)
Definition BroadcastMessage {P : Type} (channelID : string) (p : P)
    (s : LendingMarketsSocket) : list (ClientPtr * P) :=
  omap (fun cs : ClientPtr * bool => if cs.2 then Some (cs.1, p) else None)
       (map_to_list (default ∅ (subscriptions s !! channelID))).

(** A call of the registry's API, and a sequence of calls run in order. *)
Inductive op : Type :=
| OpSubscribe (channelID : string) (c : ClientPtr)
| OpUnsubscribeChannel (channelID : string) (c : ClientPtr)
| OpUnsubscribe (c : ClientPtr).

Definition step (s : LendingMarketsSocket) (o : op) : LendingMarketsSocket :=
  match o with
  | OpSubscribe ch c => (Subscribe ch c s).2
  | OpUnsubscribeChannel ch c => UnsubscribeChannel ch c s
  | OpUnsubscribe c => Unsubscribe c s
  end.

Definition run (ops : list op) (s : LendingMarketsSocket) : LendingMarketsSocket :=
  foldl step s ops.

(** [c] holds an active forward-index entry on [channelID]. *)
Definition active (channelID : string) (c : ClientPtr)
    (s : LendingMarketsSocket) : Prop :=
  flag channelID c s = true.

(** [c] is a key of the inverse index. *)
Definition listed (c : ClientPtr) (s : LendingMarketsSocket) : Prop :=
  is_Some (subscriptionsList s !! c).

(** The pair [(channelID, c)] occurs somewhere in the registry's state:
    as a key of the channel's inner map, or in the slice of [c]. *)
Definition pair_in_state (channelID : string) (c : ClientPtr)
    (s : LendingMarketsSocket) : Prop :=
  (exists inner, subscriptions s !! channelID = Some inner /\ is_Some (inner !! c))
  \/ (exists ids, subscriptionsList s !! c = Some ids /\ channelID ∈ ids).

(** The operation [o] is a [Subscribe] of the connection [c]. *)
Definition subscribes (c : ClientPtr) (o : op) : Prop :=
  match o with
  | OpSubscribe _ c' => c' = c
  | _ => False
  end.

(** The invariant the mutations keep: an active entry on [ch] is listed
    under [ch] in the slice of its connection. *)
Definition forward_listed (s : LendingMarketsSocket) : Prop :=
  forall ch c, active ch c s ->
    exists ids, subscriptionsList s !! c = Some ids /\ ch ∈ ids.

End Registry.

(** ** Data of the lending order service *)

Module Types.

(** Modelled from the spec: [types.LENDING_ORDER_ADDED], the ADDED status
    (package [types] is not under src/). *)
Definition LENDING_ORDER_ADDED : string := "LENDING_ORDER_ADDED".
(** Modelled from the spec: [types.LENDING_ORDER_CANCELLED], the CANCELLED
    status; [handleLendingOrderCancelled] writes the same text as a literal. *)
Definition LENDING_ORDER_CANCELLED : string := "LENDING_ORDER_CANCELLED".
(** Modelled from the spec: [types.LENDING_ORDER_REJECTED], the REJECTED status. *)
Definition LENDING_ORDER_REJECTED : string := "LENDING_ORDER_REJECTED".
(** Modelled from the spec: [types.LENDING_ORDER_PARTIALLY_FILLED], the
    PARTIALLY_FILLED status. *)
Definition LENDING_ORDER_PARTIALLY_FILLED : string := "LENDING_ORDER_PARTIALLY_FILLED".
(** Modelled from the spec: [types.LENDING_ORDER_FILLED], the FILLED status. *)
Definition LENDING_ORDER_FILLED : string := "LENDING_ORDER_FILLED".
(** Modelled from the spec: [types.LENDING_ORDER_REPAYED], the REPAYED status. *)
Definition LENDING_ORDER_REPAYED : string := "LENDING_ORDER_REPAYED".
(** Modelled from the spec: [types.LENDING_ORDER_TOPUPED], the TOPUPED status. *)
Definition LENDING_ORDER_TOPUPED : string := "LENDING_ORDER_TOPUPED".
(** Modelled from the spec: [types.LENDING_ORDER_RECALLED], the RECALLED status. *)
Definition LENDING_ORDER_RECALLED : string := "LENDING_ORDER_RECALLED".
(** Modelled from the spec: [types.LENDING_ORDER_TOPUP_REJECTED], the
    TOPUP_REJECTED status. *)
Definition LENDING_ORDER_TOPUP_REJECTED : string := "LENDING_ORDER_TOPUP_REJECTED".
(** Modelled from the spec: [types.LENDING_ORDER_REPAY_REJECTED], the
    REPAY_REJECTED status. *)
Definition LENDING_ORDER_REPAY_REJECTED : string := "LENDING_ORDER_REPAY_REJECTED".
(** Modelled from the spec: [types.LENDING_ORDER_RECALL_REJECTED], the
    RECALL_REJECTED status. *)
Definition LENDING_ORDER_RECALL_REJECTED : string := "LENDING_ORDER_RECALL_REJECTED".
(** Modelled from the spec: [types.ERROR_STATUS], the ERROR status. *)
Definition ERROR_STATUS : string := "ERROR".

(** Modelled from the spec: [types.LendingStatusOpen], storage status OPEN. *)
Definition LendingStatusOpen : string := "OPEN".
(** Modelled from the spec: [types.LendingStatusCancelled], storage status
    CANCELLED. *)
Definition LendingStatusCancelled : string := "CANCELLED".
(** Modelled from the spec: [types.LendingStatusFilled], storage status FILLED. *)
Definition LendingStatusFilled : string := "FILLED".
(** Modelled from the spec: [types.LendingStatusPartialFilled], storage status
    PARTIAL_FILLED. *)
Definition LendingStatusPartialFilled : string := "PARTIAL_FILLED".
(** Modelled from the spec: [types.LendingStatusRepay], storage status REPAY. *)
Definition LendingStatusRepay : string := "REPAY".
(** Modelled from the spec: [types.LendingStatusTopup], storage status TOPUP. *)
Definition LendingStatusTopup : string := "TOPUP".
(** Modelled from the spec: [types.LendingStatusRecall], storage status RECALL. *)
Definition LendingStatusRecall : string := "RECALL".
(** Modelled from the spec: [types.LendingStatusRejected], storage status
    REJECTED. *)
Definition LendingStatusRejected : string := "REJECTED".

(** Modelled from the spec: [types.BORROW], the BORROW side of an order. *)
Definition BORROW : string := "BORROW".
(** Modelled from the spec: [types.TypeLog], the type given to every
    notification of the pipeline. *)
Definition TypeLog : string := "LOG".
(** Modelled from the spec: [types.StatusUnread], the read-state a
    notification is created with. *)
Definition StatusUnread : string := "UNREAD".

(** [common.Hash] (32 bytes) and [common.Address] (20 bytes) are the numbers
    their bytes spell, big-endian; [uint64] fields are numbers too. *)
Record LendingOrder : Type := mkLendingOrder {
  Hash : N;
  UserAddress : N;
  Side : string;
  Term : N;
  LendingToken : N;
  CollateralToken : N;
  Interest : N;
  Status : string
}.

(** [types.EngineResponse]; the embedded order is a pointer, [None] is nil. *)
Record EngineResponse : Type := mkEngineResponse {
  res_Status : string;
  res_LendingOrder : option LendingOrder
}.

Record Message : Type := mkMessage {
  MessageType : string;
  Description : string
}.

Record Notification : Type := mkNotification {
  Recipient : N;
  n_Message : Message;
  n_Type : string;
  n_Status : string
}.

(** A trade document, known to the service only as what
    [lendingTradeDao.GetByHash] hands back. *)
Inductive LendingTrade : Type := lendingTrade (id : N).

(** [types.LendingOrderBook]: the snapshot of one channel. *)
Record LendingOrderBook : Type := mkLendingOrderBook {
  Name : string;
  Borrow : list (gmap string string);
  Lend : list (gmap string string)
}.

(** [types.LendingOrderChangeEvent]: the full document is a pointer. *)
Record LendingOrderChangeEvent : Type := mkChangeEvent {
  OperationType : string;
  FullDocument : option LendingOrder
}.

(** [rabbitmq.Message]: [Data] is a byte slice, one character per byte. *)
Record BrokerMessage : Type := mkBrokerMessage {
  msg_Type : string;
  msg_Data : string
}.

(** Lower-case hexadecimal digits of [x], exactly [digits] of them. *)
Definition hex_digit (d : N) : ascii :=
  nth (N.to_nat d) (String.list_ascii_of_string "0123456789abcdef") "0"%char.

Fixpoint hex_fixed (digits : nat) (x : N) : string :=
  match digits with
  | O => ""
  | S n => hex_fixed n (x / 16)%N +:+ String (hex_digit (x mod 16)%N) ""
  end.

(** [common.Hash.Hex]: ["0x"] and the 64 digits of the 32 bytes. *)
Definition Hash_Hex (h : N) : string := "0x" +:+ hex_fixed 64 h.

(** Modelled from the spec: [utils.GetLendingOrderBookChannelID] (package
    [utils] is not under src/); the channel name is ["<term>::<token>"],
    the term in decimal and the token as the hexadecimal text of its 20
    bytes. *)
Definition GetLendingOrderBookChannelID (term : N) (lendingToken : N) : string :=
  pretty term +:+ "::" +:+ ("0x" +:+ hex_fixed 40 lendingToken).

End Types.

(** ** The lending order service *)

Module Service.
Export Types.

(** Document types of the four watchers. *)
Definition LENDING_EVENT : string := "ORDER".
Definition REPAY_EVENT : string := "REPAY".
Definition TOPUP_EVENT : string := "TOPUP".
Definition RECALL_EVENT : string := "RECALL".

(** What goes out on a websocket message to one user. *)
Inductive Payload : Type :=
| OrderPayload (o : LendingOrder)
| TradePayload (t : option LendingTrade).

(** The calls the service makes on its collaborators, on its mutex and on
    the logger, in the order they happen. *)
Inductive Event : Type :=
| NotificationCreate (n : Notification)
| SendLendingOrderMessage (msgType : string) (a : N) (p : Payload)
| SendNotificationMessage (msgType : string) (a : N) (ns : list Notification)
| LendingTradeGetByHash (h : N)
| GetLendingOrderBookInterest (term token interest : N) (side : string)
| OrderBookBroadcast (channelID : string) (book : LendingOrderBook)
| PublishLendingOrderResponse (res : EngineResponse)
| AddNewLendingOrder (o : LendingOrder)
| CancelLendingOrder (o : LendingOrder)
| MutexLock
| MutexUnlock
| LogError (what : string)
| LogInfo (what : string).

(** What the collaborators answer; an error is its text, [None] is nil. *)
Record Collaborators : Type := mkCollaborators {
  notificationDao_Create : Notification -> list Notification * option string;
  lendingTradeDao_GetByHash : N -> option LendingTrade;
  lendingDao_GetLendingOrderBookInterest :
    N -> N -> N -> string -> option Z * option string;
  lendingDao_AddNewLendingOrder : LendingOrder -> option string;
  lendingDao_CancelLendingOrder : LendingOrder -> option string;
  broker_PublishLendingOrderResponse : EngineResponse -> option string;
  json_Unmarshal : string -> string + LendingOrder
}.

(** The state a call runs in: the calls made so far and the service's
    [bulkLendingOrders] buffer. *)
Record World : Type := mkWorld {
  trace : list Event;
  bulkLendingOrders : gmap string (gmap N LendingOrder)
}.

(** A call returns a value, or panics (nil pointer dereference). *)
Inductive Outcome (A : Type) : Type :=
| Returned (a : A) (w : World)
| Panicked (w : World).
Arguments Returned {A} a w.
Arguments Panicked {A} w.

Definition M (A : Type) : Type := World -> Outcome A.

#[global] Instance M_ret : MRet M := fun A a w => Returned a w.
#[global] Instance M_bind : MBind M := fun A B f m w =>
  match m w with
  | Returned a w' => f a w'
  | Panicked w' => Panicked w'
  end.

Definition emit (e : Event) : M unit :=
  fun w => Returned tt {| trace := trace w ++ [e];
                          bulkLendingOrders := bulkLendingOrders w |}.

(** Reading a field through a pointer. *)
Definition deref {A : Type} (p : option A) : M A :=
  fun w => match p with Some a => Returned a w | None => Panicked w end.

Definition get_bulk : M (gmap string (gmap N LendingOrder)) :=
  fun w => Returned (bulkLendingOrders w) w.

Definition set_bulk (b : gmap string (gmap N LendingOrder)) : M unit :=
  fun w => Returned tt {| trace := trace w; bulkLendingOrders := b |}.

(** [if err != nil { logger.Error(err) }] *)
Definition log_if_error (err : option string) : M unit :=
  match err with
  | Some e => emit (LogError e)
  | None => mret tt
  end.

(** The block every handler repeats: [s.notificationDao.Create] of a
    notification for the order's user, then the error logged. *)
Definition createNotification (d : Collaborators) (o : LendingOrder)
    (msgType : string) : M (list Notification) :=
  let n := {| Recipient := UserAddress o;
              n_Message := {| MessageType := msgType;
                              Description := Hash_Hex (Hash o) |};
              n_Type := TypeLog;
              n_Status := StatusUnread |} in
  _ ← emit (NotificationCreate n);
  let (notifications, err) := notificationDao_Create d n in
  _ ← log_if_error err;
  mret notifications.

Definition handleLendingOrderAdded (d : Collaborators) (res : EngineResponse) : M unit :=
  o ← deref (res_LendingOrder res);
  _ ← emit (SendLendingOrderMessage LENDING_ORDER_ADDED (UserAddress o) (OrderPayload o));
  notifications ← createNotification d o (res_Status res);
  _ ← emit (SendNotificationMessage (res_Status res) (UserAddress o) notifications);
  emit (LogInfo "BroadcastOrderBookUpdate Lending Added").

Definition handleLendingOrderPartialFilled (d : Collaborators) (res : EngineResponse) : M unit :=
  mret tt.

Definition handleLendingOrderFilled (d : Collaborators) (res : EngineResponse) : M unit :=
  mret tt.

Definition handleLendingTopup (d : Collaborators) (res : EngineResponse) : M unit :=
  o ← deref (res_LendingOrder res);
  notifications ← createNotification d o (res_Status res);
  _ ← emit (SendNotificationMessage LENDING_ORDER_TOPUPED (UserAddress o) notifications);
  _ ← emit (LendingTradeGetByHash (Hash o));
  let lendingTrade := lendingTradeDao_GetByHash d (Hash o) in
  emit (SendLendingOrderMessage LENDING_ORDER_TOPUPED (UserAddress o) (TradePayload lendingTrade)).

Definition handleLendingRepay (d : Collaborators) (res : EngineResponse) : M unit :=
  o ← deref (res_LendingOrder res);
  notifications ← createNotification d o (res_Status res);
  _ ← emit (SendNotificationMessage LENDING_ORDER_REPAYED (UserAddress o) notifications);
  _ ← emit (LendingTradeGetByHash (Hash o));
  let lendingTrade := lendingTradeDao_GetByHash d (Hash o) in
  emit (SendLendingOrderMessage LENDING_ORDER_REPAYED (UserAddress o) (TradePayload lendingTrade)).

Definition handleLendingRecall (d : Collaborators) (res : EngineResponse) : M unit :=
  o ← deref (res_LendingOrder res);
  _ ← emit (SendLendingOrderMessage LENDING_ORDER_RECALLED (UserAddress o) (OrderPayload o));
  notifications ← createNotification d o (res_Status res);
  _ ← emit (SendNotificationMessage LENDING_ORDER_RECALLED (UserAddress o) notifications);
  _ ← emit (LendingTradeGetByHash (Hash o));
  let lendingTrade := lendingTradeDao_GetByHash d (Hash o) in
  emit (SendLendingOrderMessage LENDING_ORDER_RECALLED (UserAddress o) (TradePayload lendingTrade)).

Definition handleLendingReject (d : Collaborators) (res : EngineResponse)
    (lendingType : string) : M unit :=
  o ← deref (res_LendingOrder res);
  _ ← emit (SendLendingOrderMessage lendingType (UserAddress o) (OrderPayload o));
  notifications ← createNotification d o (res_Status res);
  emit (SendNotificationMessage lendingType (UserAddress o) notifications).

Definition handleLendingOrderCancelled (d : Collaborators) (res : EngineResponse) : M unit :=
  o ← deref (res_LendingOrder res);
  notifications ← createNotification d o "LENDING_ORDER_CANCELLED";
  _ ← emit (SendLendingOrderMessage LENDING_ORDER_CANCELLED (UserAddress o) (OrderPayload o));
  _ ← emit (SendNotificationMessage LENDING_ORDER_CANCELLED (UserAddress o) notifications);
  emit (LogInfo "BroadcastOrderBookUpdate Lending Cancelled").

Definition handleLendingOrderRejected (d : Collaborators) (res : EngineResponse) : M unit :=
  mret tt.

Definition handleEngineError (d : Collaborators) (res : EngineResponse) : M unit :=
  o ← deref (res_LendingOrder res);
  notifications ← createNotification d o LENDING_ORDER_REJECTED;
  _ ← emit (SendLendingOrderMessage LENDING_ORDER_REJECTED (UserAddress o) (OrderPayload o));
  _ ← emit (SendNotificationMessage LENDING_ORDER_REJECTED (UserAddress o) notifications);
  emit (LogInfo "BroadcastOrderBookUpdate lending rejected").

Definition handleEngineUnknownMessage (d : Collaborators) (res : EngineResponse) : M unit :=
  mret tt.

(** [saveBulkLendingOrders]: the channel id is computed from the order
    before the lock is taken; the deferred unlock runs at the return. *)
Definition saveBulkLendingOrders (res : EngineResponse) : M (option string) :=
  o ← deref (res_LendingOrder res);
  let id := GetLendingOrderBookChannelID (Term o) (LendingToken o) in
  _ ← emit MutexLock;
  bulk ← get_bulk;
  _ ← match bulk !! id with
      | Some orders => set_bulk (<[id := <[Hash o := o]> orders]> bulk)
      | None => set_bulk (<[id := <[Hash o := o]> ∅]> bulk)
      end;
  _ ← emit MutexUnlock;
  mret None.

(** The [switch] of [HandleLendingOrderResponse]: the cases are tried from
    the top. *)
Definition dispatch (d : Collaborators) (res : EngineResponse) : M unit :=
  let st := res_Status res in
  if String.eqb st LENDING_ORDER_ADDED then handleLendingOrderAdded d res
  else if String.eqb st LENDING_ORDER_CANCELLED then handleLendingOrderCancelled d res
  else if String.eqb st LENDING_ORDER_REJECTED then handleLendingOrderRejected d res
  else if String.eqb st LENDING_ORDER_PARTIALLY_FILLED then handleLendingOrderPartialFilled d res
  else if String.eqb st LENDING_ORDER_FILLED then handleLendingOrderFilled d res
  else if String.eqb st LENDING_ORDER_REPAYED then handleLendingRepay d res
  else if String.eqb st LENDING_ORDER_TOPUPED then handleLendingTopup d res
  else if String.eqb st LENDING_ORDER_RECALLED then handleLendingRecall d res
  else if String.eqb st LENDING_ORDER_TOPUP_REJECTED
       then handleLendingReject d res LENDING_ORDER_TOPUP_REJECTED
  else if String.eqb st LENDING_ORDER_REPAY_REJECTED
       then handleLendingReject d res LENDING_ORDER_REPAY_REJECTED
  else if String.eqb st LENDING_ORDER_RECALL_REJECTED
       then handleLendingReject d res LENDING_ORDER_RECALL_REJECTED
  else if String.eqb st ERROR_STATUS then handleEngineError d res
  else handleEngineUnknownMessage d res.

(** [HandleLendingOrderResponse], for a response pointer that is not nil. *)
Definition HandleLendingOrderResponse (d : Collaborators) (res : EngineResponse)
    : M (option string) :=
  _ ← dispatch d res;
  _ ← (if negb (String.eqb (res_Status res) ERROR_STATUS) then
         err ← saveBulkLendingOrders res;
         match err with
         | Some e => emit (LogError ("Save bulk order" +:+ e))
         | None => mret tt
         end
       else mret tt);
  mret None.

(** One turn of the inner loop of [processBulkLendingOrders]. *)
Definition processOrder (d : Collaborators)
    (acc : list (gmap string string) * list (gmap string string))
    (o : LendingOrder) : M (list (gmap string string) * list (gmap string string)) :=
  let side := Side o in
  _ ← emit (GetLendingOrderBookInterest (Term o) (LendingToken o) (Interest o) side);
  let (amount, err) :=
    lendingDao_GetLendingOrderBookInterest d (Term o) (LendingToken o) (Interest o) side in
  _ ← log_if_error err;
  let amount := match amount with Some a => a | None => 0%Z end in
  let update : gmap string string :=
    <["interest" := pretty (Interest o)]> (<["amount" := pretty amount]> ∅) in
  if String.eqb side BORROW
  then mret (acc.1 ++ [update], acc.2)
  else mret (acc.1, acc.2 ++ [update]).

(** A [for ... range] loop threading an accumulator. *)
Fixpoint forM {A B : Type} (f : B -> A -> M B) (acc : B) (l : list A) : M B :=
  match l with
  | [] => mret acc
  | x :: l' => acc' ← f acc x; forM f acc' l'
  end.

(** One turn of the outer loop: a channel without pending order is
    skipped.  Go ranges over the orders in an unspecified order, of which
    the one of [map_to_list] is an instance: what is stated of the two
    lists of a snapshot below is membership, or holds up to permutation. *)
Definition processChannel (d : Collaborators) (_ : unit)
    (entry : string * gmap N LendingOrder) : M unit :=
  let (p, orders) := entry in
  if (size orders <=? 0)%nat then mret tt
  else
    lists ← forM (processOrder d) ([], []) (map_to_list orders).*2;
    emit (OrderBookBroadcast p {| Name := p; Borrow := lists.1; Lend := lists.2 |}).

(** [processBulkLendingOrders]: the lock is taken on entry and released by
    the deferred unlock, after the buffer is replaced by a new map.  Go
    ranges over its maps in an unspecified order; [map_to_list] fixes one. *)
Definition processBulkLendingOrders (d : Collaborators) : M unit :=
  _ ← emit MutexLock;
  bulk ← get_bulk;
  _ ← forM (processChannel d) tt (map_to_list bulk);
  _ ← set_bulk ∅;
  emit MutexUnlock.

(** [HandleDocumentType]: the status chain fills the response, which is
    published when its status is not empty. *)
Definition HandleDocumentType (d : Collaborators) (ev : LendingOrderChangeEvent)
    (docType : string) : M (option string) :=
  match FullDocument ev with
  | None => mret None
  | Some doc =>
      let res0 := {| res_Status := ""; res_LendingOrder := None |} in
      let filled st := {| res_Status := st; res_LendingOrder := Some doc |} in
      let res :=
        if String.eqb (Status doc) LendingStatusOpen then filled LENDING_ORDER_ADDED
        else if String.eqb (Status doc) LendingStatusCancelled then filled LENDING_ORDER_CANCELLED
        else if String.eqb (Status doc) LendingStatusFilled then filled LENDING_ORDER_FILLED
        else if String.eqb (Status doc) LendingStatusPartialFilled
             then filled LENDING_ORDER_PARTIALLY_FILLED
        else if String.eqb (Status doc) LendingStatusRepay then filled LENDING_ORDER_REPAYED
        else if String.eqb (Status doc) LendingStatusTopup then filled LENDING_ORDER_TOPUPED
        else if String.eqb (Status doc) LendingStatusRecall then filled LENDING_ORDER_RECALLED
        else if String.eqb (Status doc) LendingStatusRejected then
          let r1 := if String.eqb docType REPAY_EVENT
                    then filled LENDING_ORDER_REPAY_REJECTED else res0 in
          let r2 := if String.eqb docType TOPUP_EVENT
                    then filled LENDING_ORDER_TOPUP_REJECTED else r1 in
          let r3 := if String.eqb docType RECALL_EVENT
                    then filled LENDING_ORDER_RECALL_REJECTED else r2 in
          if String.eqb docType LENDING_EVENT
          then filled LENDING_ORDER_REJECTED else r3
        else res0 in
      if negb (String.eqb (res_Status res) "") then
        _ ← emit (PublishLendingOrderResponse res);
        match broker_PublishLendingOrderResponse d res with
        | Some err => _ ← emit (LogError err); mret (Some err)
        | None => mret None
        end
      else mret None
  end.

Definition handleNewLendingOrder (d : Collaborators) (bytes : string) : M (option string) :=
  match json_Unmarshal d bytes with
  | inl err => _ ← emit (LogError err); mret (Some err)
  | inr o => _ ← emit (AddNewLendingOrder o); mret (lendingDao_AddNewLendingOrder d o)
  end.

Definition handleCancelLendingOrder (d : Collaborators) (bytes : string) : M (option string) :=
  match json_Unmarshal d bytes with
  | inl err => _ ← emit (LogError err); mret (Some err)
  | inr o => _ ← emit (CancelLendingOrder o); mret (lendingDao_CancelLendingOrder d o)
  end.

Definition HandleLendingOrdersCreateCancel (d : Collaborators) (msg : BrokerMessage)
    : M (option string) :=
  if String.eqb (msg_Type msg) "NEW_LENDING_ORDER" then
    err ← handleNewLendingOrder d (msg_Data msg);
    match err with
    | Some e => _ ← emit (LogError e); mret (Some e)
    | None => mret None
    end
  else if String.eqb (msg_Type msg) "CANCEL_LENDING_ORDER" then
    err ← handleCancelLendingOrder d (msg_Data msg);
    match err with
    | Some e => _ ← emit (LogError e); mret (Some e)
    | None => mret None
    end
  else
    _ ← emit (LogError "Unknown message"); mret None.

(** The service as [NewLendingOrderService] builds it: nothing called yet,
    an empty buffer. *)
Definition NewLendingOrderService : World :=
  {| trace := []; bulkLendingOrders := ∅ |}.

End Service.

(** ** Properties of traces and states the statements below are about *)

Module Properties.
Import Registry.
Export Service.

(** An open borrow order, for the examples. *)
Definition order1 : LendingOrder :=
  {| Hash := 1; UserAddress := 7; Side := BORROW; Term := 86400;
     LendingToken := 5; CollateralToken := 6; Interest := 10;
     Status := LendingStatusOpen |}.

(** The statuses with a case of their own in the dispatch [switch]. *)
Definition dispatch_table : list string :=
  [ LENDING_ORDER_ADDED; LENDING_ORDER_CANCELLED; LENDING_ORDER_REJECTED;
    LENDING_ORDER_PARTIALLY_FILLED; LENDING_ORDER_FILLED;
    LENDING_ORDER_REPAYED; LENDING_ORDER_TOPUPED; LENDING_ORDER_RECALLED;
    LENDING_ORDER_TOPUP_REJECTED; LENDING_ORDER_REPAY_REJECTED;
    LENDING_ORDER_RECALL_REJECTED; ERROR_STATUS ].

(** The statuses of the table other than PARTIALLY_FILLED, FILLED and
    ERROR. *)
Definition statuses_but_fills : list string :=
  [ LENDING_ORDER_ADDED; LENDING_ORDER_CANCELLED; LENDING_ORDER_REJECTED;
    LENDING_ORDER_REPAYED; LENDING_ORDER_TOPUPED; LENDING_ORDER_RECALLED;
    LENDING_ORDER_TOPUP_REJECTED; LENDING_ORDER_REPAY_REJECTED;
    LENDING_ORDER_RECALL_REJECTED ].

(** The statuses whose handler notifies the user. *)
Definition notifying_statuses : list string :=
  [ LENDING_ORDER_ADDED; LENDING_ORDER_CANCELLED;
    LENDING_ORDER_REPAYED; LENDING_ORDER_TOPUPED; LENDING_ORDER_RECALLED;
    LENDING_ORDER_TOPUP_REJECTED; LENDING_ORDER_REPAY_REJECTED;
    LENDING_ORDER_RECALL_REJECTED ].

(** The statuses whose case of the [switch] runs an empty handler:
    REJECTED, PARTIALLY_FILLED, FILLED and the default case. *)
Definition silent (st : string) : Prop :=
  st ∈ [LENDING_ORDER_REJECTED; LENDING_ORDER_PARTIALLY_FILLED; LENDING_ORDER_FILLED]
  \/ st ∉ dispatch_table.

(** The notification a handler builds for the order [o]. *)
Definition notification_for (o : LendingOrder) (msgType : string) : Notification :=
  {| Recipient := UserAddress o;
     n_Message := {| MessageType := msgType; Description := Hash_Hex (Hash o) |};
     n_Type := TypeLog;
     n_Status := StatusUnread |}.

(** What [if err != nil { logger.Error(err) }] adds to the trace. *)
Definition error_log (err : option string) : list Event :=
  match err with
  | Some e => [LogError e]
  | None => []
  end.

(** The event is a websocket message addressed to [a]. *)
Definition addressed_to (a : N) (e : Event) : bool :=
  match e with
  | SendLendingOrderMessage _ a' _ => N.eqb a a'
  | SendNotificationMessage _ a' _ => N.eqb a a'
  | _ => false
  end.

Definition is_log (e : Event) : bool :=
  match e with
  | LogError _ | LogInfo _ => true
  | _ => false
  end.

(** Handling [res] from [w] returns no error, a notification tagged with
    the order's hash and the status of [res] is handed to the notification
    store, and a message goes to the order's user address. *)
Definition persists_and_sends (d : Collaborators) (res : EngineResponse)
    (w : World) : Prop :=
  exists o w' evs,
    res_LendingOrder res = Some o /\
    HandleLendingOrderResponse d res w = Returned None w' /\
    trace w' = trace w ++ evs /\
    (exists n, NotificationCreate n ∈ evs /\
               Description (n_Message n) = Hash_Hex (Hash o) /\
               MessageType (n_Message n) = res_Status res) /\
    (exists e, e ∈ evs /\ addressed_to (UserAddress o) e = true).

(** Handling [res] from [w] returns no error, creates no notification,
    sends no message and leaves the aggregator's buffer as it was. *)
Definition dropped_silently (d : Collaborators) (res : EngineResponse)
    (w : World) : Prop :=
  exists w' evs,
    HandleLendingOrderResponse d res w = Returned None w' /\
    trace w' = trace w ++ evs /\
    (forall n, NotificationCreate n ∉ evs) /\
    (forall a e, e ∈ evs -> addressed_to a e = false) /\
    bulkLendingOrders w' = bulkLendingOrders w.

(** The fixed table of the change-stream watcher, as the specification
    words it: storage status and document type to response status. *)
Definition assoc (k : string) (l : list (string * string)) : option string :=
  snd <$> find (fun kv => String.eqb k kv.1) l.

Definition status_table (status docType : string) : option string :=
  if String.eqb status "REJECTED" then
    assoc docType [ ("ORDER", LENDING_ORDER_REJECTED);
                    ("TOPUP", LENDING_ORDER_TOPUP_REJECTED);
                    ("REPAY", LENDING_ORDER_REPAY_REJECTED);
                    ("RECALL", LENDING_ORDER_RECALL_REJECTED) ]
  else
    assoc status [ ("OPEN", LENDING_ORDER_ADDED);
                   ("CANCELLED", LENDING_ORDER_CANCELLED);
                   ("FILLED", LENDING_ORDER_FILLED);
                   ("PARTIAL_FILLED", LENDING_ORDER_PARTIALLY_FILLED);
                   ("REPAY", LENDING_ORDER_REPAYED);
                   ("TOPUP", LENDING_ORDER_TOPUPED);
                   ("RECALL", LENDING_ORDER_RECALLED) ].

Definition watcher_types : list string :=
  [ LENDING_EVENT; TOPUP_EVENT; REPAY_EVENT; RECALL_EVENT ].



(** Events of a flush body: lookups, their error logs, broadcasts. *)
Definition is_flush_body (e : Event) : bool :=
  match e with
  | GetLendingOrderBookInterest _ _ _ _ | OrderBookBroadcast _ _ | LogError _ => true
  | _ => false
  end.

(** The buffer after [saveBulkLendingOrders] of the order [o]. *)
Definition buffered (o : LendingOrder) (bulk : gmap string (gmap N LendingOrder))
    : gmap string (gmap N LendingOrder) :=
  let id := GetLendingOrderBookChannelID (Term o) (LendingToken o) in
  <[id := <[Hash o := o]> (default ∅ (bulk !! id))]> bulk.

(** [saveBulkLendingOrders] called on each response of [rs] in turn. *)
Definition saveAll (rs : list EngineResponse) : M unit :=
  forM (fun (_ : unit) r => _ ← saveBulkLendingOrders r; mret tt) tt rs.


(** The buffer holds nothing, or one order, under the channel [id] and the
    hash [h]. *)
Definition only_entry (id : string) (h : N)
    (bulk : gmap string (gmap N LendingOrder)) : Prop :=
  bulk = ∅ \/ exists o, bulk = {[ id := {[ h := o ]} ]}.


(** The two indices agree on who is subscribed. *)
Definition indices_agree (s : LendingMarketsSocket) : Prop :=
  forall c, listed c s <-> exists ch, active ch c s.

(** How many messages a broadcast on [ch] delivers to [c]. *)
Definition deliveries {P : Type} (ch : string) (c : ClientPtr) (p : P)
    (s : LendingMarketsSocket) : nat :=
  length (filter (fun cp : ClientPtr * P => cp.1 = c) (BroadcastMessage ch p s)).

(** After two [Subscribe] of the same pair one entry is active, and one
    [UnsubscribeChannel] leaves nothing of the pair in the registry. *)
Definition twice_then_gone (ch : string) (k : nat) (s : LendingMarketsSocket) : Prop :=
  let s2 := (Subscribe ch (Some k) (Subscribe ch (Some k) s).2).2 in
  deliveries ch (Some k) tt s2 = 1 /\
  ~ pair_in_state ch (Some k) (UnsubscribeChannel ch (Some k) s2).

(** Handling [msg] from [w] surfaces no error and writes nothing to
    storage; what happened is logged. *)
Definition dropped_without_error (d : Collaborators) (msg : BrokerMessage)
    (w : World) : Prop :=
  exists w' evs,
    HandleLendingOrdersCreateCancel d msg w = Returned None w' /\
    trace w' = trace w ++ evs /\ evs <> [] /\
    Forall (fun e => is_log e = true) evs.

(** [order1] as storage holds it once partially filled, and once cancelled. *)
Definition order1_partial : LendingOrder :=
  {| Hash := 1; UserAddress := 7; Side := BORROW; Term := 86400;
     LendingToken := 5; CollateralToken := 6; Interest := 10;
     Status := LendingStatusPartialFilled |}.

Definition order1_cancelled : LendingOrder :=
  {| Hash := 1; UserAddress := 7; Side := BORROW; Term := 86400;
     LendingToken := 5; CollateralToken := 6; Interest := 10;
     Status := LendingStatusCancelled |}.

(** A topup document that storage marks REJECTED. *)
Definition rejected_topup : LendingOrder :=
  {| Hash := 2; UserAddress := 7; Side := "INVEST"; Term := 86400;
     LendingToken := 5; CollateralToken := 6; Interest := 12;
     Status := LendingStatusRejected |}.

(** Collaborators for the examples: stores that accept everything and
    hold nothing, a broker that publishes, and a decoder that rejects
    every payload with the error [json.Unmarshal] gives for an empty one. *)
Definition quiet : Collaborators :=
  {| notificationDao_Create := fun n => ([n], None);
     lendingTradeDao_GetByHash := fun _ => None;
     lendingDao_GetLendingOrderBookInterest := fun _ _ _ _ => (None, None);
     lendingDao_AddNewLendingOrder := fun _ => None;
     lendingDao_CancelLendingOrder := fun _ => None;
     broker_PublishLendingOrderResponse := fun _ => None;
     json_Unmarshal := fun _ => inl "unexpected end of JSON input" |}.

End Properties.

(** ** Further definitions: order submission, and what the registry and
       the flush compute *)

Module Submission.
Export Types.

(** What [NewLendingOrder] consults: the order's own [Validate] and
    [VerifySignature], the test [o.Type == types.TypeLimitOrder] (the
    [Type] field is not part of the record above), the balance validator
    and the broker.  An error is its text, [None] is nil. *)
Record Checks : Type := mkChecks {
  o_Validate : LendingOrder -> option string;
  o_VerifySignature : LendingOrder -> bool * option string;
  o_isLimitOrder : LendingOrder -> bool;
  validator_ValidateAvailablLendingBalance : LendingOrder -> option string;
  broker_PublishLendingOrderMessage : LendingOrder -> option string
}.

(** The calls [NewLendingOrder] makes on the validator, the broker and the
    logger. *)
Inductive SubmitEvent : Type :=
| ValidateBalance (o : LendingOrder)
| PublishLendingOrderMessage (o : LendingOrder)
| SubmitLogError (what : string).

(** [NewLendingOrder], for an order pointer that is not nil: the calls made,
    in order, and the error returned. *)
Definition NewLendingOrder (k : Checks) (o : LendingOrder)
    : list SubmitEvent * option string :=
  match o_Validate k o with
  | Some err => ([SubmitLogError err], Some err)
  | None =>
      let (ok, err) := o_VerifySignature k o in
      let logged := match err with
                    | Some e => [SubmitLogError e]
                    | None => []
                    end in
      if negb ok then (logged, Some "Invalid Signature")
      else
        let balance :=
          if o_isLimitOrder k o
          then ([ValidateBalance o], validator_ValidateAvailablLendingBalance k o)
          else ([], None) in
        match balance.2 with
        | Some e => (logged ++ balance.1 ++ [SubmitLogError e], Some e)
        | None =>
            match broker_PublishLendingOrderMessage k o with
            | Some e =>
                (logged ++ balance.1 ++ [PublishLendingOrderMessage o; SubmitLogError e],
                 Some e)
            | None => (logged ++ balance.1 ++ [PublishLendingOrderMessage o], None)
            end
        end
  end.

(** Every check of a submission passes. *)
Definition checks_pass (k : Checks) (o : LendingOrder) : Prop :=
  o_Validate k o = None /\
  (o_VerifySignature k o).1 = true /\
  (o_isLimitOrder k o = true -> validator_ValidateAvailablLendingBalance k o = None).

(** Checks for the examples: a verifier that reports an error and accepts
    all the same, limit orders only, a validator and a broker that agree. *)
Definition lenient : Checks :=
  {| o_Validate := fun _ => None;
     o_VerifySignature := fun _ => (true, Some "recovery id out of range");
     o_isLimitOrder := fun _ => true;
     validator_ValidateAvailablLendingBalance := fun _ => None;
     broker_PublishLendingOrderMessage := fun _ => None |}.

(** Checks for the examples: a verifier that rejects, with an error of
    its own. *)
Definition strict : Checks :=
  {| o_Validate := fun _ => None;
     o_VerifySignature := fun _ => (false, Some "invalid signature length");
     o_isLimitOrder := fun _ => true;
     validator_ValidateAvailablLendingBalance := fun _ => None;
     broker_PublishLendingOrderMessage := fun _ => None |}.

End Submission.

Module Summaries.
Import Registry.
Export Properties.

(** What one call of the registry decides for the pair [(ch, c)]: a
    Subscribe of the pair (by a connection that is not nil) makes it
    active, an UnsubscribeChannel of the pair or an Unsubscribe of [c]
    makes it inactive, any other call leaves [b]. *)
Definition settles (ch : string) (c : ClientPtr) (b : bool) (o : op) : bool :=
  match o with
  | OpSubscribe ch' c' =>
      if decide (ch' = ch /\ c' = c /\ c <> None) then true else b
  | OpUnsubscribeChannel ch' c' =>
      if decide (ch' = ch /\ c' = c) then false else b
  | OpUnsubscribe c' =>
      if decide (c' = c) then false else b
  end.

(** The last call of [ops] that concerns the pair is a Subscribe. *)
Definition last_subscribed (ch : string) (c : ClientPtr) (ops : list op) : bool :=
  foldl (settles ch c) false ops.

(** The channels of the Subscribe calls of [c] in [ops], in call order. *)
Definition subscribed_channels (c : ClientPtr) (ops : list op) : list string :=
  omap (fun o => match o with
                 | OpSubscribe ch c' => if decide (c' = c) then Some ch else None
                 | _ => None
                 end) ops.

(** The entry of a snapshot for one pending order: its interest in
    decimal and the volume storage reports at that interest, 0 when
    storage hands back nil. *)
Definition update_of (d : Collaborators) (o : LendingOrder) : gmap string string :=
  let amount :=
    (lendingDao_GetLendingOrderBookInterest d
       (Term o) (LendingToken o) (Interest o) (Side o)).1 in
  <["interest" := pretty (Interest o)]>
    (<["amount" := pretty (default 0%Z amount)]> ∅).

(** The snapshot of a channel: the pending orders of side BORROW, and the
    others, each list in the order the map is ranged over. *)
Definition snapshot (d : Collaborators) (p : string)
    (orders : gmap N LendingOrder) : LendingOrderBook :=
  let pending := (map_to_list orders).*2 in
  {| Name := p;
     Borrow := update_of d <$> filter (fun o => Side o = BORROW) pending;
     Lend := update_of d <$> filter (fun o => Side o <> BORROW) pending |}.

(** The statuses that settle a loan: repay, topup, recall. *)
Definition settlement_statuses : list string :=
  [ LENDING_ORDER_REPAYED; LENDING_ORDER_TOPUPED; LENDING_ORDER_RECALLED ].

(** [book] is a snapshot of the channel [p] with the pending [orders]:
    named after the channel, its borrow list holds the entries of the
    BORROW orders and its lend list those of the others, in any order. *)
Definition is_snapshot_of (d : Collaborators) (p : string)
    (orders : gmap N LendingOrder) (book : LendingOrderBook) : Prop :=
  Name book = p /\
  Borrow book ≡ₚ
    update_of d <$> filter (fun o => Side o = BORROW) (map_to_list orders).*2 /\
  Lend book ≡ₚ
    update_of d <$> filter (fun o => Side o <> BORROW) (map_to_list orders).*2.

(** The channels of the broadcasts of a trace, one per broadcast, in the
    order of the trace. *)
Definition broadcast_channels (evs : list Event) : list string :=
  omap (fun e => match e with
                 | OrderBookBroadcast p _ => Some p
                 | _ => None
                 end) evs.

(** Where the buffer keeps the order of channel [id] and hash [h]. *)
Definition pending_order (id : string) (h : N)
    (bulk : gmap string (gmap N LendingOrder)) : option LendingOrder :=
  bulk !! id ≫= fun orders => orders !! h.

(** Collaborators for the examples that decode every payload to [order1]
    and whose storage refuses the write. *)
Definition refusing : Collaborators :=
  {| notificationDao_Create := fun n => ([], Some "notification not saved");
     lendingTradeDao_GetByHash := fun _ => None;
     lendingDao_GetLendingOrderBookInterest := fun _ _ _ _ => (None, None);
     lendingDao_AddNewLendingOrder := fun _ => Some "duplicate order";
     lendingDao_CancelLendingOrder := fun _ => Some "order not found";
     broker_PublishLendingOrderResponse := fun _ => None;
     json_Unmarshal := fun _ => inr order1 |}.

End Summaries.

(** ** Facts about the registry *)

Module RegistryFacts.
Import Registry Properties.

Lemma flag_lookup ch c s :
  flag ch c s = true <->
  exists inner, subscriptions s !! ch = Some inner /\ inner !! c = Some true.
Proof.
  unfold flag. split.
  - destruct (subscriptions s !! ch) as [inner|] eqn:E; simpl.
    + destruct (inner !! c) as [b|] eqn:E'; simpl; [|done].
      intros ->. eauto.
    + rewrite lookup_empty. done.
  - intros (inner & -> & Hc). simpl. by rewrite Hc.
Qed.

Lemma flag_Subscribe ch' c' ch k s :
  flag ch' c' (Subscribe ch (Some k) s).2 =
  if decide (ch' = ch /\ c' = Some k) then true else flag ch' c' s.
Proof.
  unfold flag, Subscribe; simpl.
  destruct (decide (ch' = ch)) as [->|Hch].
  - rewrite lookup_insert_eq; simpl.
    destruct (decide (c' = Some k)) as [->|Hc].
    + rewrite lookup_insert_eq. by rewrite decide_True.
    + rewrite lookup_insert_ne by done. rewrite decide_False by tauto. done.
  - rewrite lookup_insert_ne by done. rewrite decide_False by tauto. done.
Qed.

Lemma flag_UnsubscribeChannel ch' c' ch c s :
  flag ch' c' (UnsubscribeChannel ch c s) =
  if decide (ch' = ch /\ c' = c) then false else flag ch' c' s.
Proof.
  unfold UnsubscribeChannel.
  destruct (flag ch c s) eqn:F.
  - unfold flag; simpl.
    destruct (decide (ch' = ch)) as [->|Hch].
    + rewrite lookup_insert_eq; simpl.
      destruct (decide (c' = c)) as [->|Hc].
      * rewrite lookup_delete_eq. by rewrite decide_True.
      * rewrite lookup_delete_ne, lookup_insert_ne by done.
        rewrite decide_False by tauto. done.
    + rewrite lookup_insert_ne by done. rewrite decide_False by tauto. done.
  - case_decide as H; [|done]. destruct H as [-> ->]. done.
Qed.

Lemma list_UnsubscribeChannel ch c s :
  subscriptionsList (UnsubscribeChannel ch c s) = subscriptionsList s.
Proof. unfold UnsubscribeChannel. by destruct (flag ch c s). Qed.

Lemma list_Subscribe c' ch k s :
  subscriptionsList (Subscribe ch (Some k) s).2 !! c' =
  if decide (c' = Some k)
  then Some (default [] (subscriptionsList s !! c') ++ [ch])
  else subscriptionsList s !! c'.
Proof.
  unfold Subscribe; simpl. case_decide as H.
  - subst. by rewrite lookup_insert_eq.
  - by rewrite lookup_insert_ne.
Qed.

(** The loop of [Unsubscribe], over any slice of channel ids. *)
Lemma flag_unsubscribe_loop ids : forall ch' c' c s,
  flag ch' c' (foldl (fun acc id => UnsubscribeChannel id c acc) s ids) =
  if decide (c' = c /\ ch' ∈ ids) then false else flag ch' c' s.
Proof.
  induction ids as [|id ids IH]; intros ch' c' c s; simpl.
  - rewrite decide_False; [done|]. intros [_ H]. by apply elem_of_nil in H.
  - rewrite IH, flag_UnsubscribeChannel.
    pose proof (elem_of_cons ids ch' id) as Hc.
    repeat case_decide; try done; exfalso; tauto.
Qed.

Lemma list_unsubscribe_loop ids : forall c s,
  subscriptionsList (foldl (fun acc id => UnsubscribeChannel id c acc) s ids) =
  subscriptionsList s.
Proof.
  induction ids as [|id ids IH]; intros c s; simpl; [done|].
  by rewrite IH, list_UnsubscribeChannel.
Qed.

Lemma list_Unsubscribe c s :
  subscriptionsList (Unsubscribe c s) = subscriptionsList s.
Proof.
  unfold Unsubscribe. destruct (subscriptionsList s !! c); [|done].
  apply list_unsubscribe_loop.
Qed.

Lemma flag_Unsubscribe_other ch' c' c s :
  flag ch' c' (Unsubscribe c s) = true -> flag ch' c' s = true.
Proof.
  unfold Unsubscribe. destruct (subscriptionsList s !! c); [|done].
  rewrite flag_unsubscribe_loop. by case_decide.
Qed.

Lemma flag_Unsubscribe_self ch c s :
  forward_listed s -> flag ch c (Unsubscribe c s) = false.
Proof.
  intros Hinv. unfold Unsubscribe.
  destruct (subscriptionsList s !! c) as [ids|] eqn:E.
  - rewrite flag_unsubscribe_loop. case_decide as H; [done|].
    destruct (flag ch c s) eqn:F; [|done].
    destruct (Hinv ch c F) as (ids' & E' & Hin).
    rewrite E in E'. injection E' as <-. tauto.
  - destruct (flag ch c s) eqn:F; [|done].
    destruct (Hinv ch c F) as (ids' & E' & _). congruence.
Qed.

Lemma forward_listed_new : forward_listed NewLendingMarketsSocket.
Proof. intros ch c. unfold active, flag. simpl. rewrite lookup_empty. simpl. by rewrite lookup_empty. Qed.

Lemma forward_listed_step s o : forward_listed s -> forward_listed (step s o).
Proof.
  intros Hinv ch c. unfold active. destruct o as [ch0 [k|]|ch0 c0|c0]; cbn [step].
  - rewrite flag_Subscribe, list_Subscribe. intros F.
    destruct (decide (c = Some k)) as [->|Hc]; cbn match.
    + eexists; split; [reflexivity|]. apply elem_of_app.
      destruct (decide (ch = ch0)) as [->|Hch]; [right; apply list_elem_of_singleton; done|].
      rewrite decide_False in F by tauto.
      destruct (Hinv ch (Some k) F) as (ids & -> & Hin). by left.
    + rewrite decide_False in F by tauto. by apply Hinv.
  - apply Hinv.
  - rewrite flag_UnsubscribeChannel, list_UnsubscribeChannel.
    case_decide; [done|]. apply Hinv.
  - rewrite list_Unsubscribe. intros F. apply Hinv.
    by apply flag_Unsubscribe_other in F.
Qed.

Lemma forward_listed_run ops : forall s, forward_listed s -> forward_listed (run ops s).
Proof.
  unfold run. induction ops as [|o ops IH]; intros s Hinv; simpl; [done|].
  apply IH. by apply forward_listed_step.
Qed.

(** A connection that no operation subscribes stays without active entry. *)
Lemma inactive_step c s o :
  ~ subscribes c o -> (forall ch, flag ch c s = false) ->
  forall ch, flag ch c (step s o) = false.
Proof.
  intros Hno Hoff ch. destruct o as [ch0 [k|]|ch0 c0|c0]; cbn [step subscribes] in *.
  - rewrite flag_Subscribe. rewrite decide_False; [done|]. intros [_ ->]. by apply Hno.
  - done.
  - rewrite flag_UnsubscribeChannel. by case_decide.
  - destruct (flag ch c (Unsubscribe c0 s)) eqn:F; [|done].
    apply flag_Unsubscribe_other in F. by rewrite Hoff in F.
Qed.

Lemma inactive_run c ops : forall s,
  Forall (fun o => ~ subscribes c o) ops -> (forall ch, flag ch c s = false) ->
  forall ch, flag ch c (run ops s) = false.
Proof.
  unfold run. induction ops as [|o ops IH]; intros s Hall Hoff; simpl; [done|].
  inversion Hall; subst. apply IH; [done|]. by apply inactive_step.
Qed.

(** Who receives a broadcast: exactly the connections whose flag is true. *)
Lemma elem_of_BroadcastMessage {P : Type} ch (p : P) c q s :
  (c, q) ∈ BroadcastMessage ch p s <-> q = p /\ flag ch c s = true.
Proof.
  unfold BroadcastMessage. rewrite list_elem_of_omap. split.
  - intros ([c' b] & Hin & Hsome). simpl in Hsome.
    destruct b; [|done]. injection Hsome as -> ->. split; [done|].
    apply elem_of_map_to_list in Hin. unfold flag. by rewrite Hin.
  - intros [-> F]. apply flag_lookup in F as (inner & E & Hc).
    exists (c, true). rewrite E. simpl. split; [|done].
    by apply elem_of_map_to_list.
Qed.

(** A broadcast delivers one message to a connection whose flag is true
    and none to any other. *)
Lemma deliveries_other {P : Type} (c : ClientPtr) (p : P) (l : list (ClientPtr * bool)) :
  (forall x, x ∈ l -> x.1 <> c) ->
  filter (fun cp : ClientPtr * P => cp.1 = c)
    (omap (fun cs : ClientPtr * bool => if cs.2 then Some (cs.1, p) else None) l) = [].
Proof.
  induction l as [|[c' b] l IH]; intros Hne; [done|].
  cbn [omap list_omap]. simpl.
  assert (Hc' : c' <> c) by (apply (Hne (c', b)); apply list_elem_of_here).
  assert (IH' := IH (fun x Hx => Hne x (list_elem_of_further _ _ _ Hx))).
  destruct b; [|exact IH'].
  rewrite filter_cons_False by (simpl; done). exact IH'.
Qed.

Lemma deliveries_flag {P : Type} ch c (p : P) s :
  deliveries ch c p s = if flag ch c s then 1 else 0.
Proof.
  unfold deliveries, BroadcastMessage, flag.
  set (inner := default ∅ (subscriptions s !! ch)).
  destruct (inner !! c) as [b|] eqn:E; simpl.
  - rewrite <- (map_to_list_delete inner c b E).
    cbn [omap list_omap]. simpl.
    assert (Hrest : filter (fun cp : ClientPtr * P => cp.1 = c)
              (omap (fun cs : ClientPtr * bool => if cs.2 then Some (cs.1, p) else None)
                    (map_to_list (delete c inner))) = []).
    { apply deliveries_other. intros [c' b'] Hin Heq. simpl in Heq. subst c'.
      apply elem_of_map_to_list in Hin. by rewrite lookup_delete_eq in Hin. }
    destruct b.
    + rewrite filter_cons_True by done. by rewrite Hrest.
    + by rewrite Hrest.
  - rewrite deliveries_other; [done|].
    intros [c' b'] Hin Heq. simpl in Heq. subst c'.
    apply elem_of_map_to_list in Hin. congruence.
Qed.

(** C3 (amended) -- After any sequence of Subscribe, UnsubscribeChannel
    and Unsubscribe calls on a new registry, a connection that holds an
    active forward-index entry on a channel is a key of the inverse index,
    and that channel is in its slice. *)
Theorem active_connection_is_listed ops ch c :
  active ch c (run ops NewLendingMarketsSocket) ->
  listed c (run ops NewLendingMarketsSocket) /\
  exists ids, subscriptionsList (run ops NewLendingMarketsSocket) !! c = Some ids /\
              ch ∈ ids.
Proof.
  intros Hact.
  destruct (forward_listed_run ops _ forward_listed_new ch c Hact) as (ids & E & Hin).
  split; [by exists ids|by exists ids].
Qed.

Lemma active_connection_witness :
  listed (Some 1) (run [OpSubscribe "lending" (Some 1)] NewLendingMarketsSocket).
Proof.
  apply (active_connection_is_listed [OpSubscribe "lending" (Some 1)] "lending" (Some 1)).
  reflexivity.
Defined.

(** C3 (as stated, refuted) -- After Subscribe then UnsubscribeChannel of
    the same pair, the connection is still a key of the inverse index and
    holds no active entry. *)
Lemma indices_disagree_after_unsubscribe :
  ~ indices_agree
      (run [OpSubscribe "lending" (Some 1); OpUnsubscribeChannel "lending" (Some 1)]
           NewLendingMarketsSocket).
Proof.
  intros H. destruct (H (Some 1)) as [Hlisted _].
  destruct Hlisted as [ch Hact].
  - exists ["lending"]. reflexivity.
  - unfold active, run in Hact. cbn [foldl step] in Hact.
    rewrite flag_UnsubscribeChannel, flag_Subscribe in Hact.
    repeat case_decide; done.
Qed.

(** C8 -- After any sequence of calls on a new registry followed by
    [Unsubscribe c], and then any calls among which none subscribes [c]
    again, a broadcast on any channel delivers nothing to [c]. *)
Theorem unsubscribed_receives_nothing {P : Type} ops1 ops2 c ch (p q : P) :
  Forall (fun o => ~ subscribes c o) ops2 ->
  (c, q) ∉ BroadcastMessage ch p
             (run ops2 (Unsubscribe c (run ops1 NewLendingMarketsSocket))).
Proof.
  intros Hno Hin. apply elem_of_BroadcastMessage in Hin as [_ F].
  rewrite (inactive_run c ops2) in F; [done|done|].
  intros ch'. apply flag_Unsubscribe_self.
  apply forward_listed_run, forward_listed_new.
Qed.

Lemma unsubscribed_receives_nothing_witness :
  (Some 1, "snapshot") ∉
    BroadcastMessage "lending" "snapshot"
      (run [OpUnsubscribeChannel "margin" (Some 2); OpSubscribe "lending" (Some 2)]
         (Unsubscribe (Some 1)
            (run [OpSubscribe "lending" (Some 1); OpSubscribe "margin" (Some 1);
                  OpSubscribe "lending" (Some 2)]
                 NewLendingMarketsSocket))).
Proof.
  apply (unsubscribed_receives_nothing
           [OpSubscribe "lending" (Some 1); OpSubscribe "margin" (Some 1);
            OpSubscribe "lending" (Some 2)]
           [OpUnsubscribeChannel "margin" (Some 2); OpSubscribe "lending" (Some 2)]
           (Some 1) "lending" "snapshot" "snapshot").
  repeat constructor; simpl; [tauto | discriminate].
Defined.

(** C6 (amended) -- Subscribing the same pair twice leaves the forward
    index as one Subscribe does, with one active entry for the pair (a
    broadcast delivers one message to the connection); one
    [UnsubscribeChannel] then removes that entry, so that a broadcast
    delivers nothing; the inverse index lists the channel once per
    Subscribe and [UnsubscribeChannel] leaves it so. *)
Theorem subscribe_twice_one_active_entry {P : Type} ch k s (p : P) :
  let s1 := (Subscribe ch (Some k) s).2 in
  let s2 := (Subscribe ch (Some k) s1).2 in
  let s3 := UnsubscribeChannel ch (Some k) s2 in
  subscriptions s2 = subscriptions s1 /\
  deliveries ch (Some k) p s2 = 1 /\
  (exists inner, subscriptions s3 !! ch = Some inner /\ inner !! Some k = None) /\
  deliveries ch (Some k) p s3 = 0 /\
  subscriptionsList s3 !! Some k =
    Some (default [] (subscriptionsList s !! Some k) ++ [ch; ch]).
Proof.
  intros s1 s2 s3.
  assert (F2 : flag ch (Some k) s2 = true).
  { subst s2. rewrite flag_Subscribe. by rewrite decide_True. }
  repeat split.
  - subst s2 s1. unfold Subscribe; cbn [snd subscriptions].
    rewrite lookup_insert_eq. cbn [default]. unfold id.
    rewrite (insert_insert_eq (default ∅ (subscriptions s !! ch))).
    by rewrite (insert_insert_eq (subscriptions s)).
  - by rewrite deliveries_flag, F2.
  - subst s3. unfold UnsubscribeChannel. rewrite F2. cbn [subscriptions].
    eexists. split; [apply lookup_insert_eq|apply lookup_delete_eq].
  - subst s3. rewrite deliveries_flag, flag_UnsubscribeChannel.
    by rewrite decide_True.
  - subst s3. rewrite list_UnsubscribeChannel. subst s2.
    rewrite list_Subscribe, decide_True by done. subst s1.
    rewrite list_Subscribe, decide_True by done. cbn [default]. unfold id.
    by rewrite <- app_assoc.
Qed.

(** C6 (as stated, refuted) -- After two Subscribe and one
    UnsubscribeChannel of the same pair, the pair is still in the
    registry's state: the slice of the connection lists the channel. *)
Lemma pair_remains_after_unsubscribe :
  ~ twice_then_gone "lending" 1 NewLendingMarketsSocket.
Proof.
  intros [_ Hgone]. apply Hgone. right.
  exists ["lending"; "lending"]. split; [reflexivity|apply list_elem_of_here].
Qed.

End RegistryFacts.

(** ** Facts about the dispatcher *)

Module DispatcherFacts.
Import Properties.

(** Unfolds the monad of the service down to worlds and outcomes. *)
Ltac run_M :=
  cbv [mbind mret M_bind M_ret emit deref get_bulk set_bulk log_if_error].

Ltac unfold_handlers :=
  cbv [HandleLendingOrderResponse dispatch saveBulkLendingOrders
       handleLendingOrderAdded handleLendingOrderCancelled
       handleLendingOrderRejected handleLendingOrderPartialFilled
       handleLendingOrderFilled handleLendingRepay handleLendingTopup
       handleLendingRecall handleLendingReject handleEngineError
       handleEngineUnknownMessage res_Status res_LendingOrder].

Lemma saveBulkLendingOrders_some st o w :
  saveBulkLendingOrders {| res_Status := st; res_LendingOrder := Some o |} w =
  Returned None {| trace := trace w ++ [MutexLock; MutexUnlock];
                   bulkLendingOrders := buffered o (bulkLendingOrders w) |}.
Proof.
  unfold saveBulkLendingOrders, buffered. run_M. cbn [res_LendingOrder].
  destruct w as [tr bulk]. cbn [trace bulkLendingOrders].
  destruct (bulk !! _); cbn; by rewrite <- app_assoc.
Qed.

Lemma saveBulkLendingOrders_nil st w :
  saveBulkLendingOrders {| res_Status := st; res_LendingOrder := None |} w = Panicked w.
Proof. reflexivity. Qed.


Lemma createNotification_run d o msgType w :
  createNotification d o msgType w =
  let r := notificationDao_Create d (notification_for o msgType) in
  Returned r.1
    {| trace := trace w ++ NotificationCreate (notification_for o msgType) :: error_log r.2;
       bulkLendingOrders := bulkLendingOrders w |}.
Proof.
  destruct w as [tr bulk]. unfold createNotification, notification_for.
  cbv [mbind mret M_bind M_ret emit log_if_error error_log].
  cbn [trace bulkLendingOrders].
  destruct (notificationDao_Create d _) as [ns [e|]]; cbn;
    by rewrite <- ?app_assoc.
Qed.

(** Runs a handler on a response that carries an order. *)
Ltac exec w :=
  destruct w as [tr bulk]; unfold_handlers; run_M;
  cbn [trace bulkLendingOrders];
  rewrite ?createNotification_run; cbn [trace bulkLendingOrders fst snd];
  rewrite <- ?app_assoc; cbn [app]; try reflexivity.

Section Handlers.
Variable d : Collaborators.
Variable o : LendingOrder.
Variable st : string.

Local Abbreviation res := {| res_Status := st; res_LendingOrder := Some o |}.
Local Abbreviation created msgType := (notificationDao_Create d (notification_for o msgType)).

Lemma handleLendingOrderAdded_run w :
  handleLendingOrderAdded d res w =
  Returned tt
    {| trace := trace w ++
         SendLendingOrderMessage LENDING_ORDER_ADDED (UserAddress o) (OrderPayload o)
         :: NotificationCreate (notification_for o st)
         :: error_log (created st).2 ++
         [ SendNotificationMessage st (UserAddress o) (created st).1;
           LogInfo "BroadcastOrderBookUpdate Lending Added" ];
       bulkLendingOrders := bulkLendingOrders w |}.
Proof. exec w. Qed.

Lemma handleLendingOrderCancelled_run w :
  handleLendingOrderCancelled d res w =
  Returned tt
    {| trace := trace w ++
         NotificationCreate (notification_for o "LENDING_ORDER_CANCELLED")
         :: error_log (created "LENDING_ORDER_CANCELLED").2 ++
         [ SendLendingOrderMessage LENDING_ORDER_CANCELLED (UserAddress o) (OrderPayload o);
           SendNotificationMessage LENDING_ORDER_CANCELLED (UserAddress o)
             (created "LENDING_ORDER_CANCELLED").1;
           LogInfo "BroadcastOrderBookUpdate Lending Cancelled" ];
       bulkLendingOrders := bulkLendingOrders w |}.
Proof. exec w. Qed.

Lemma handleLendingTopup_run w :
  handleLendingTopup d res w =
  Returned tt
    {| trace := trace w ++
         NotificationCreate (notification_for o st)
         :: error_log (created st).2 ++
         [ SendNotificationMessage LENDING_ORDER_TOPUPED (UserAddress o) (created st).1;
           LendingTradeGetByHash (Hash o);
           SendLendingOrderMessage LENDING_ORDER_TOPUPED (UserAddress o)
             (TradePayload (lendingTradeDao_GetByHash d (Hash o))) ];
       bulkLendingOrders := bulkLendingOrders w |}.
Proof. exec w. Qed.

Lemma handleLendingRepay_run w :
  handleLendingRepay d res w =
  Returned tt
    {| trace := trace w ++
         NotificationCreate (notification_for o st)
         :: error_log (created st).2 ++
         [ SendNotificationMessage LENDING_ORDER_REPAYED (UserAddress o) (created st).1;
           LendingTradeGetByHash (Hash o);
           SendLendingOrderMessage LENDING_ORDER_REPAYED (UserAddress o)
             (TradePayload (lendingTradeDao_GetByHash d (Hash o))) ];
       bulkLendingOrders := bulkLendingOrders w |}.
Proof. exec w. Qed.

Lemma handleLendingRecall_run w :
  handleLendingRecall d res w =
  Returned tt
    {| trace := trace w ++
         SendLendingOrderMessage LENDING_ORDER_RECALLED (UserAddress o) (OrderPayload o)
         :: NotificationCreate (notification_for o st)
         :: error_log (created st).2 ++
         [ SendNotificationMessage LENDING_ORDER_RECALLED (UserAddress o) (created st).1;
           LendingTradeGetByHash (Hash o);
           SendLendingOrderMessage LENDING_ORDER_RECALLED (UserAddress o)
             (TradePayload (lendingTradeDao_GetByHash d (Hash o))) ];
       bulkLendingOrders := bulkLendingOrders w |}.
Proof. exec w. Qed.

Lemma handleLendingReject_run lendingType w :
  handleLendingReject d res lendingType w =
  Returned tt
    {| trace := trace w ++
         SendLendingOrderMessage lendingType (UserAddress o) (OrderPayload o)
         :: NotificationCreate (notification_for o st)
         :: error_log (created st).2 ++
         [ SendNotificationMessage lendingType (UserAddress o) (created st).1 ];
       bulkLendingOrders := bulkLendingOrders w |}.
Proof. exec w. Qed.

Lemma handleEngineError_run w :
  handleEngineError d res w =
  Returned tt
    {| trace := trace w ++
         NotificationCreate (notification_for o LENDING_ORDER_REJECTED)
         :: error_log (created LENDING_ORDER_REJECTED).2 ++
         [ SendLendingOrderMessage LENDING_ORDER_REJECTED (UserAddress o) (OrderPayload o);
           SendNotificationMessage LENDING_ORDER_REJECTED (UserAddress o)
             (created LENDING_ORDER_REJECTED).1;
           LogInfo "BroadcastOrderBookUpdate lending rejected" ];
       bulkLendingOrders := bulkLendingOrders w |}.
Proof. exec w. Qed.

End Handlers.

(** What follows the [switch]: every response but ERROR goes to the
    aggregator, and nil is returned. *)
Lemma HandleLendingOrderResponse_tail d res w :
  HandleLendingOrderResponse d res w =
  match dispatch d res w with
  | Returned _ w1 =>
      if negb (String.eqb (res_Status res) ERROR_STATUS)
      then match saveBulkLendingOrders res w1 with
           | Returned _ w2 => Returned None w2
           | Panicked w2 => Panicked w2
           end
      else Returned None w1
  | Panicked w1 => Panicked w1
  end.
Proof.
  unfold HandleLendingOrderResponse. cbv [mbind mret M_bind M_ret].
  destruct (dispatch d res w) as [[] w1|w1]; [|done].
  destruct (negb _); [|done].
  unfold saveBulkLendingOrders. cbv [mbind mret M_bind M_ret deref].
  destruct (res_LendingOrder res); [|done].
  cbv [emit get_bulk set_bulk]. by destruct (_ !! _).
Qed.

(** A status outside the table fails every test of the [switch]. *)
Lemma eqb_outside_table st x :
  st ∉ dispatch_table -> x ∈ dispatch_table -> String.eqb st x = false.
Proof.
  intros Hout Hin. apply String.eqb_neq. intros ->. by apply Hout.
Qed.

Ltac in_table := unfold dispatch_table; repeat (first [apply list_elem_of_here | apply list_elem_of_further]).

Lemma dispatch_silent d st o w :
  silent st -> dispatch d {| res_Status := st; res_LendingOrder := o |} w = Returned tt w.
Proof.
  intros [Hin|Hout].
  - repeat (apply elem_of_cons in Hin as [->|Hin]); try reflexivity.
    by apply elem_of_nil in Hin.
  - unfold dispatch. cbn [res_Status].
    rewrite !(eqb_outside_table st) by (done || in_table). reflexivity.
Qed.

Lemma silent_not_error st : silent st -> String.eqb st ERROR_STATUS = false.
Proof.
  intros [Hin|Hout].
  - repeat (apply elem_of_cons in Hin as [->|Hin]); try reflexivity.
    by apply elem_of_nil in Hin.
  - apply eqb_outside_table; [done|in_table].
Qed.

Lemma HandleLendingOrderResponse_silent d st o w :
  silent st ->
  HandleLendingOrderResponse d {| res_Status := st; res_LendingOrder := Some o |} w =
  Returned None {| trace := trace w ++ [MutexLock; MutexUnlock];
                   bulkLendingOrders := buffered o (bulkLendingOrders w) |}.
Proof.
  intros Hs. rewrite HandleLendingOrderResponse_tail, dispatch_silent by done.
  cbn [res_Status]. rewrite silent_not_error by done. cbn [negb].
  by rewrite saveBulkLendingOrders_some.
Qed.

(** The case the [switch] takes for each status that notifies, and for ERROR. *)
Lemma dispatch_cases d o :
  let res st := {| res_Status := st; res_LendingOrder := o |} in
  dispatch d (res LENDING_ORDER_ADDED) = handleLendingOrderAdded d (res LENDING_ORDER_ADDED) /\
  dispatch d (res LENDING_ORDER_CANCELLED) = handleLendingOrderCancelled d (res LENDING_ORDER_CANCELLED) /\
  dispatch d (res LENDING_ORDER_REPAYED) = handleLendingRepay d (res LENDING_ORDER_REPAYED) /\
  dispatch d (res LENDING_ORDER_TOPUPED) = handleLendingTopup d (res LENDING_ORDER_TOPUPED) /\
  dispatch d (res LENDING_ORDER_RECALLED) = handleLendingRecall d (res LENDING_ORDER_RECALLED) /\
  dispatch d (res LENDING_ORDER_TOPUP_REJECTED) =
    handleLendingReject d (res LENDING_ORDER_TOPUP_REJECTED) LENDING_ORDER_TOPUP_REJECTED /\
  dispatch d (res LENDING_ORDER_REPAY_REJECTED) =
    handleLendingReject d (res LENDING_ORDER_REPAY_REJECTED) LENDING_ORDER_REPAY_REJECTED /\
  dispatch d (res LENDING_ORDER_RECALL_REJECTED) =
    handleLendingReject d (res LENDING_ORDER_RECALL_REJECTED) LENDING_ORDER_RECALL_REJECTED /\
  dispatch d (res ERROR_STATUS) = handleEngineError d (res ERROR_STATUS).
Proof. repeat split. Qed.

(** Membership in a trace written as conses and appends. *)
Ltac in_trace :=
  first [ apply list_elem_of_here
        | apply list_elem_of_further; in_trace
        | apply elem_of_app; left; in_trace
        | apply elem_of_app; right; in_trace ].

Ltac handled Hcase Hrun :=
  rewrite Hcase, Hrun; cbn [res_Status]; change (negb _) with true; cbv iota;
  rewrite saveBulkLendingOrders_some; split; [reflexivity|];
  cbn [trace]; rewrite <- !app_assoc; cbn [app]; split; [reflexivity|].

Ltac notified_and_sent o st e :=
  split; [ exists (notification_for o st); split; [in_trace | by split]
         | exists e; split; [in_trace | apply N.eqb_refl] ].

(** C1 (amended) -- For each of ADDED, CANCELLED, REPAYED, TOPUPED,
    RECALLED, TOPUP_REJECTED, REPAY_REJECTED and RECALL_REJECTED, handling a
    response that carries an order hands to the notification store a
    notification whose description is the order's hash and whose message
    type is the triggering status, and sends a message to the order's user
    address; no error is returned. *)
Theorem notifying_handlers_persist_and_send d o st w :
  st ∈ notifying_statuses ->
  persists_and_sends d {| res_Status := st; res_LendingOrder := Some o |} w.
Proof.
  intros Hin. unfold persists_and_sends.
  destruct (dispatch_cases d (Some o)) as (A & C & RP & TU & RC & TR & RR & CR & _).
  repeat (apply elem_of_cons in Hin as [->|Hin]); [..|by apply elem_of_nil in Hin];
    exists o; eexists; eexists; (split; [reflexivity|]);
    rewrite HandleLendingOrderResponse_tail.
  - handled A handleLendingOrderAdded_run.
    notified_and_sent o LENDING_ORDER_ADDED
      (SendLendingOrderMessage LENDING_ORDER_ADDED (UserAddress o) (OrderPayload o)).
  - handled C handleLendingOrderCancelled_run.
    notified_and_sent o LENDING_ORDER_CANCELLED
      (SendLendingOrderMessage LENDING_ORDER_CANCELLED (UserAddress o) (OrderPayload o)).
  - handled RP handleLendingRepay_run.
    notified_and_sent o LENDING_ORDER_REPAYED
      (SendLendingOrderMessage LENDING_ORDER_REPAYED (UserAddress o)
         (TradePayload (lendingTradeDao_GetByHash d (Hash o)))).
  - handled TU handleLendingTopup_run.
    notified_and_sent o LENDING_ORDER_TOPUPED
      (SendLendingOrderMessage LENDING_ORDER_TOPUPED (UserAddress o)
         (TradePayload (lendingTradeDao_GetByHash d (Hash o)))).
  - handled RC handleLendingRecall_run.
    notified_and_sent o LENDING_ORDER_RECALLED
      (SendLendingOrderMessage LENDING_ORDER_RECALLED (UserAddress o) (OrderPayload o)).
  - handled TR handleLendingReject_run.
    notified_and_sent o LENDING_ORDER_TOPUP_REJECTED
      (SendLendingOrderMessage LENDING_ORDER_TOPUP_REJECTED (UserAddress o) (OrderPayload o)).
  - handled RR handleLendingReject_run.
    notified_and_sent o LENDING_ORDER_REPAY_REJECTED
      (SendLendingOrderMessage LENDING_ORDER_REPAY_REJECTED (UserAddress o) (OrderPayload o)).
  - handled CR handleLendingReject_run.
    notified_and_sent o LENDING_ORDER_RECALL_REJECTED
      (SendLendingOrderMessage LENDING_ORDER_RECALL_REJECTED (UserAddress o) (OrderPayload o)).
Qed.

Lemma notifying_handlers_witness :
  LENDING_ORDER_REPAYED ∈ notifying_statuses /\
  persists_and_sends quiet
    {| res_Status := LENDING_ORDER_REPAYED; res_LendingOrder := Some order1 |}
    NewLendingOrderService.
Proof.
  assert (H : LENDING_ORDER_REPAYED ∈ notifying_statuses) by (unfold notifying_statuses; in_trace).
  split; [exact H|].
  exact (notifying_handlers_persist_and_send quiet order1 LENDING_ORDER_REPAYED
           NewLendingOrderService H).
Defined.

(** C1 (as stated, refuted) -- REJECTED is in the dispatch table and is
    neither PARTIALLY_FILLED nor FILLED, yet its handler is empty: handling
    a REJECTED response creates no notification. *)
Lemma rejected_response_not_notified :
  LENDING_ORDER_REJECTED ∈ statuses_but_fills /\
  ~ persists_and_sends quiet
      {| res_Status := LENDING_ORDER_REJECTED; res_LendingOrder := Some order1 |}
      NewLendingOrderService.
Proof.
  split; [unfold statuses_but_fills; in_trace|].
  intros (o & w' & evs & _ & Hrun & Htr & (n & Hin & _) & _).
  rewrite HandleLendingOrderResponse_silent in Hrun by (left; in_trace).
  injection Hrun as <-. cbn in Htr. subst evs.
  repeat (apply elem_of_cons in Hin as [Hin|Hin]; [discriminate|]).
  by apply elem_of_nil in Hin.
Qed.

(** Handling a response that carries an order never panics. *)
Lemma HandleLendingOrderResponse_returns d st o w :
  exists w',
    HandleLendingOrderResponse d {| res_Status := st; res_LendingOrder := Some o |} w
    = Returned None w'.
Proof.
  destruct (decide (st ∈ dispatch_table)) as [Hin|Hout].
  - destruct (dispatch_cases d (Some o)) as (A & C & RP & TU & RC & TR & RR & CR & E).
    unfold dispatch_table in Hin.
    repeat (apply elem_of_cons in Hin as [->|Hin]); [..|by apply elem_of_nil in Hin];
      rewrite HandleLendingOrderResponse_tail;
      first [ rewrite A, handleLendingOrderAdded_run
            | rewrite C, handleLendingOrderCancelled_run
            | rewrite RP, handleLendingRepay_run
            | rewrite TU, handleLendingTopup_run
            | rewrite RC, handleLendingRecall_run
            | rewrite TR, handleLendingReject_run
            | rewrite RR, handleLendingReject_run
            | rewrite CR, handleLendingReject_run
            | rewrite E, handleEngineError_run
            | rewrite dispatch_silent by (left; in_trace) ];
      cbn [res_Status];
      first [ change (negb _) with true | change (negb _) with false ];
      cbv iota; rewrite ?saveBulkLendingOrders_some; eauto.
  - rewrite HandleLendingOrderResponse_silent by (by right). eauto.
Qed.

(** Handling a response whose order is nil panics, before anything is
    called. *)
Lemma HandleLendingOrderResponse_nil d st w :
  HandleLendingOrderResponse d {| res_Status := st; res_LendingOrder := None |} w
  = Panicked w.
Proof.
  destruct (decide (st ∈ dispatch_table)) as [Hin|Hout].
  - unfold dispatch_table in Hin.
    repeat (apply elem_of_cons in Hin as [->|Hin]); [..|by apply elem_of_nil in Hin];
      reflexivity.
  - rewrite HandleLendingOrderResponse_tail, dispatch_silent by (by right).
    cbn [res_Status]. rewrite silent_not_error by (by right). reflexivity.
Qed.

(** C10 -- With an order in the response, [HandleLendingOrderResponse]
    returns (nil) whatever the status; with a nil order and a status other
    than ERROR it panics: where the handler does not read the order, the
    forwarding to [saveBulkLendingOrders] does. *)
Theorem order_required_unless_error d st w :
  (forall o, exists w',
     HandleLendingOrderResponse d {| res_Status := st; res_LendingOrder := Some o |} w
     = Returned None w') /\
  (st <> ERROR_STATUS ->
   HandleLendingOrderResponse d {| res_Status := st; res_LendingOrder := None |} w
   = Panicked w) /\
  (st ∉ dispatch_table ->
   dispatch d {| res_Status := st; res_LendingOrder := None |} w = Returned tt w /\
   saveBulkLendingOrders {| res_Status := st; res_LendingOrder := None |} w = Panicked w).
Proof.
  split; [|split].
  - intros o. apply HandleLendingOrderResponse_returns.
  - intros _. apply HandleLendingOrderResponse_nil.
  - intros Hout. split; [apply dispatch_silent; by right|reflexivity].
Qed.

Lemma order_required_witness :
  HandleLendingOrderResponse quiet
    {| res_Status := "LENDING_ORDER_EXPIRED"; res_LendingOrder := None |}
    NewLendingOrderService
  = Panicked NewLendingOrderService.
Proof.
  pose proof (order_required_unless_error quiet "LENDING_ORDER_EXPIRED"
                NewLendingOrderService) as (_ & H & _).
  apply H. unfold ERROR_STATUS. intros Heq. discriminate Heq.
Defined.

End DispatcherFacts.

(** ** Facts about the watcher and the broker glue *)

Module GlueFacts.
Import Properties.

(** The storage statuses the table has a line for. *)
Lemma status_table_defined status docType :
  status ∈ [ LendingStatusOpen; LendingStatusCancelled; LendingStatusFilled;
             LendingStatusPartialFilled; LendingStatusRepay; LendingStatusTopup;
             LendingStatusRecall; LendingStatusRejected ] ->
  docType ∈ watcher_types ->
  is_Some (status_table status docType).
Proof.
  intros Hs Hd. unfold watcher_types in Hd.
  repeat (apply elem_of_cons in Hs as [->|Hs]); [..|by apply elem_of_nil in Hs];
    (repeat (apply elem_of_cons in Hd as [->|Hd]); [..|by apply elem_of_nil in Hd]);
    by eexists.
Qed.

(** C2 -- For a change event with a full document and a watcher's document
    type, when the fixed table gives a response status for the document's
    storage status (and, for REJECTED, the document type),
    [HandleDocumentType] publishes on the broker exactly one response, with
    that status and the document as its order; it returns what the broker
    returns, logging an error. *)
Theorem document_status_mapped d op doc docType st w :
  docType ∈ watcher_types ->
  status_table (Status doc) docType = Some st ->
  let res := {| res_Status := st; res_LendingOrder := Some doc |} in
  HandleDocumentType d {| OperationType := op; FullDocument := Some doc |} docType w =
  Returned (broker_PublishLendingOrderResponse d res)
    {| trace := trace w ++ PublishLendingOrderResponse res
                  :: error_log (broker_PublishLendingOrderResponse d res);
       bulkLendingOrders := bulkLendingOrders w |}.
Proof.
  intros Hdt Htab res. subst res.
  unfold HandleDocumentType. cbn [FullDocument].
  remember (Status doc) as s eqn:Hs. clear Hs.
  destruct w as [tr bulk].
  unfold status_table, assoc in Htab. simpl in Htab. revert Htab.
  unfold LendingStatusOpen, LendingStatusCancelled, LendingStatusFilled,
    LendingStatusPartialFilled, LendingStatusRepay, LendingStatusTopup,
    LendingStatusRecall, LendingStatusRejected.
  unfold watcher_types in Hdt.
  repeat (apply elem_of_cons in Hdt as [->|Hdt]); [..|by apply elem_of_nil in Hdt];
    repeat match goal with
           | |- context [String.eqb s ?c] =>
               destruct (String.eqb_spec s c) as [->|?]
           end;
    simpl; intros Htab;
    try discriminate Htab;
    injection Htab as <-;
    cbv [mbind mret M_bind M_ret emit]; cbn [trace bulkLendingOrders];
    destruct (broker_PublishLendingOrderResponse d _); cbn;
    rewrite <- ?app_assoc; reflexivity.
Qed.

Lemma document_status_mapped_witness :
  HandleDocumentType quiet
    {| OperationType := "update"; FullDocument := Some rejected_topup |}
    TOPUP_EVENT NewLendingOrderService =
  Returned None
    {| trace := [PublishLendingOrderResponse
                   {| res_Status := LENDING_ORDER_TOPUP_REJECTED;
                      res_LendingOrder := Some rejected_topup |}];
       bulkLendingOrders := ∅ |}.
Proof.
  apply (document_status_mapped quiet "update" rejected_topup TOPUP_EVENT
           LENDING_ORDER_TOPUP_REJECTED NewLendingOrderService).
  - unfold watcher_types. apply list_elem_of_further, list_elem_of_here.
  - reflexivity.
Defined.

(** C9 (amended) -- A NEW_LENDING_ORDER or CANCEL_LENDING_ORDER message
    whose payload fails to decode is logged (by the decoding handler and by
    the entry point), nothing is written to storage and nothing is retried,
    and the decoding error is returned to the caller; a message of any
    other type is logged and nil is returned. *)
Theorem undecodable_message_error_returned d msg w :
  (forall e,
     msg_Type msg = "NEW_LENDING_ORDER" \/ msg_Type msg = "CANCEL_LENDING_ORDER" ->
     json_Unmarshal d (msg_Data msg) = inl e ->
     HandleLendingOrdersCreateCancel d msg w =
     Returned (Some e) {| trace := trace w ++ [LogError e; LogError e];
                          bulkLendingOrders := bulkLendingOrders w |}) /\
  (msg_Type msg <> "NEW_LENDING_ORDER" ->
   msg_Type msg <> "CANCEL_LENDING_ORDER" ->
   HandleLendingOrdersCreateCancel d msg w =
   Returned None {| trace := trace w ++ [LogError "Unknown message"];
                    bulkLendingOrders := bulkLendingOrders w |}).
Proof.
  destruct w as [tr bulk]. unfold HandleLendingOrdersCreateCancel. split.
  - intros e [Hty|Hty] Hdec; rewrite Hty; simpl;
      unfold handleNewLendingOrder, handleCancelLendingOrder;
      cbv [mbind mret M_bind M_ret emit]; rewrite Hdec;
      cbn [trace bulkLendingOrders]; by rewrite <- app_assoc.
  - intros Hnew Hcancel.
    apply String.eqb_neq in Hnew, Hcancel. rewrite Hnew, Hcancel.
    reflexivity.
Qed.

Lemma undecodable_message_witness :
  HandleLendingOrdersCreateCancel quiet
    {| msg_Type := "CANCEL_LENDING_ORDER"; msg_Data := "" |} NewLendingOrderService =
  Returned (Some "unexpected end of JSON input")
    {| trace := [LogError "unexpected end of JSON input";
                 LogError "unexpected end of JSON input"];
       bulkLendingOrders := ∅ |}.
Proof.
  apply (proj1 (undecodable_message_error_returned quiet
                  {| msg_Type := "CANCEL_LENDING_ORDER"; msg_Data := "" |}
                  NewLendingOrderService)).
  - by right.
  - reflexivity.
Defined.

(** C9 (as stated, refuted) -- A NEW_LENDING_ORDER message with an empty
    payload does not decode, and the entry point returns the error to its
    caller. *)
Lemma undecodable_message_error_surfaced :
  json_Unmarshal quiet "" = inl "unexpected end of JSON input" /\
  ~ dropped_without_error quiet
      {| msg_Type := "NEW_LENDING_ORDER"; msg_Data := "" |} NewLendingOrderService.
Proof.
  split; [reflexivity|].
  intros (w' & evs & Hrun & _). discriminate Hrun.
Qed.

End GlueFacts.

(** ** Facts about the bulk aggregator *)

Module AggregatorFacts.
Import Properties DispatcherFacts.

Lemma forM_app {A B : Type} (f : B -> A -> M B) l1 : forall l2 acc w,
  forM f acc (l1 ++ l2) w =
  match forM f acc l1 w with
  | Returned acc' w' => forM f acc' l2 w'
  | Panicked w' => Panicked w'
  end.
Proof.
  induction l1 as [|x l1 IH]; intros l2 acc w; [done|].
  cbn [app forM]. cbv [mbind M_bind].
  destruct (f acc x w) as [acc' w'|w']; [apply IH|done].
Qed.

Section Flush.
Variable d : Collaborators.

Lemma processOrder_run acc o w :
  exists acc',
    processOrder d acc o w =
    Returned acc'
      {| trace := trace w ++
           GetLendingOrderBookInterest (Term o) (LendingToken o) (Interest o) (Side o)
           :: error_log (lendingDao_GetLendingOrderBookInterest d
                           (Term o) (LendingToken o) (Interest o) (Side o)).2;
         bulkLendingOrders := bulkLendingOrders w |}.
Proof.
  destruct w as [tr bulk]. unfold processOrder.
  cbv [mbind mret M_bind M_ret emit log_if_error]. cbn [trace bulkLendingOrders].
  destruct (lendingDao_GetLendingOrderBookInterest d _ _ _ _) as [amount [e|]];
    cbn [snd error_log trace bulkLendingOrders];
    destruct (String.eqb (Side o) BORROW); eexists; rewrite <- ?app_assoc; reflexivity.
Qed.

Lemma orders_run l : forall acc w,
  exists acc' body,
    forM (processOrder d) acc l w =
    Returned acc' {| trace := trace w ++ body;
                     bulkLendingOrders := bulkLendingOrders w |} /\
    Forall (fun e => is_flush_body e = true) body.
Proof.
  induction l as [|o l IH]; intros acc w.
  - exists acc, []. destruct w. cbn. by rewrite app_nil_r.
  - cbn [forM]. cbv [mbind M_bind].
    destruct (processOrder_run acc o w) as (acc1 & ->).
    destruct (IH acc1 {| trace := trace w ++
           GetLendingOrderBookInterest (Term o) (LendingToken o) (Interest o) (Side o)
           :: error_log (lendingDao_GetLendingOrderBookInterest d
                           (Term o) (LendingToken o) (Interest o) (Side o)).2;
         bulkLendingOrders := bulkLendingOrders w |}) as (acc' & body & -> & Hbody).
    eexists acc', _. cbn [trace bulkLendingOrders].
    rewrite <- app_assoc. split; [reflexivity|].
    cbn [app]. constructor; [done|]. apply Forall_app. split; [|done].
    destruct (lendingDao_GetLendingOrderBookInterest d _ _ _ _) as [amount [e|]];
      cbn; repeat constructor.
Qed.

Lemma processChannel_run p orders w :
  exists body,
    processChannel d tt (p, orders) w =
    Returned tt {| trace := trace w ++ body;
                   bulkLendingOrders := bulkLendingOrders w |} /\
    Forall (fun e => is_flush_body e = true) body /\
    (orders <> ∅ -> exists book, OrderBookBroadcast p book ∈ body).
Proof.
  unfold processChannel.
  destruct (size orders <=? 0)%nat eqn:Hsize.
  - exists []. destruct w. cbn. rewrite app_nil_r. split; [done|]. split; [done|].
    intros Hne. apply Nat.leb_le in Hsize.
    assert (size orders = 0) as Hz by lia. by apply map_size_empty_iff in Hz.
  - cbv [mbind M_bind].
    destruct (orders_run (map_to_list orders).*2 ([], []) w)
      as (lists & body & -> & Hbody).
    cbv [emit]. cbn [trace bulkLendingOrders].
    eexists. rewrite <- app_assoc. split; [reflexivity|]. split.
    + apply Forall_app. split; [done|]. by repeat constructor.
    + intros _. eexists. apply elem_of_app. right. apply list_elem_of_here.
Qed.

Lemma channels_run l : forall w,
  exists body,
    forM (processChannel d) tt l w =
    Returned tt {| trace := trace w ++ body;
                   bulkLendingOrders := bulkLendingOrders w |} /\
    Forall (fun e => is_flush_body e = true) body /\
    (forall p orders, (p, orders) ∈ l -> orders <> ∅ ->
       exists book, OrderBookBroadcast p book ∈ body).
Proof.
  induction l as [|[p orders] l IH]; intros w.
  - exists []. destruct w. cbn. rewrite app_nil_r. split; [done|]. split; [done|].
    intros p orders Hin. by apply elem_of_nil in Hin.
  - cbn [forM]. cbv [mbind M_bind].
    destruct (processChannel_run p orders w) as (body1 & -> & Hbody1 & Hbc1).
    destruct (IH {| trace := trace w ++ body1;
                    bulkLendingOrders := bulkLendingOrders w |})
      as (body2 & -> & Hbody2 & Hbc2).
    exists (body1 ++ body2). cbn [trace bulkLendingOrders].
    rewrite <- app_assoc. split; [done|]. split; [by apply Forall_app|].
    intros p' orders' Hin Hne. apply elem_of_cons in Hin as [Heq|Hin].
    + injection Heq as -> ->. destruct (Hbc1 Hne) as [book Hb].
      exists book. apply elem_of_app. by left.
    + destruct (Hbc2 p' orders' Hin Hne) as [book Hb].
      exists book. apply elem_of_app. by right.
Qed.

(** The whole flush: lock, the lookups and broadcasts, reset, unlock. *)
Lemma processBulkLendingOrders_run w :
  exists body,
    processBulkLendingOrders d w =
    Returned tt {| trace := trace w ++ MutexLock :: body ++ [MutexUnlock];
                   bulkLendingOrders := ∅ |} /\
    Forall (fun e => is_flush_body e = true) body /\
    (forall p orders, bulkLendingOrders w !! p = Some orders -> orders <> ∅ ->
       exists book, OrderBookBroadcast p book ∈ body).
Proof.
  unfold processBulkLendingOrders. cbv [mbind M_bind emit get_bulk set_bulk].
  cbn [trace bulkLendingOrders].
  destruct (channels_run (map_to_list (bulkLendingOrders w))
              {| trace := trace w ++ [MutexLock];
                 bulkLendingOrders := bulkLendingOrders w |})
    as (body & -> & Hbody & Hbc).
  exists body. cbn [trace bulkLendingOrders].
  rewrite <- !app_assoc. split; [done|]. split; [done|].
  intros p orders Hp. apply Hbc. by apply elem_of_map_to_list.
Qed.

End Flush.


Lemma buffered_lookup o bulk :
  buffered o bulk !! GetLendingOrderBookChannelID (Term o) (LendingToken o) =
  Some (<[Hash o := o]>
          (default ∅ (bulk !! GetLendingOrderBookChannelID (Term o) (LendingToken o)))).
Proof. unfold buffered. apply lookup_insert_eq. Qed.




Lemma filter_key_absent {A : Type} (h : N) (l : list (N * A)) :
  (forall e, e ∈ l -> e.1 <> h) ->
  filter (fun e : N * A => e.1 = h) l = [].
Proof.
  induction l as [|e l IH]; intros Hne; [done|].
  rewrite filter_cons_False by (apply Hne, list_elem_of_here).
  apply IH. intros e' He'. by apply Hne, list_elem_of_further.
Qed.

(** One key of a map is one entry of its listing. *)
Lemma one_entry_per_key {A : Type} (m : gmap N A) h x :
  m !! h = Some x ->
  length (filter (fun e : N * A => e.1 = h) (map_to_list m)) = 1.
Proof.
  intros Hh. rewrite <- (map_to_list_delete m h x Hh).
  rewrite filter_cons_True by done. cbn [length]. f_equal.
  rewrite filter_key_absent; [done|].
  intros [k a] Hin Heq. cbn in Heq. subst k.
  apply elem_of_map_to_list in Hin. by rewrite lookup_delete_eq in Hin.
Qed.

(** [saveAll] of one more response. *)
Lemma saveAll_snoc pre r w :
  saveAll (pre ++ [r]) w =
  match saveAll pre w with
  | Returned _ w1 =>
      match saveBulkLendingOrders r w1 with
      | Returned _ w2 => Returned tt w2
      | Panicked w2 => Panicked w2
      end
  | Panicked w1 => Panicked w1
  end.
Proof.
  unfold saveAll. rewrite forM_app.
  destruct (forM _ tt pre w) as [[] w1|w1]; [|done].
  cbn [forM]. cbv [mbind mret M_bind M_ret].
  by destruct (saveBulkLendingOrders r w1).
Qed.

(** Saving an order of channel [id] and hash [h] into a buffer that holds
    at most that entry leaves that entry alone, with the new order. *)
Lemma buffered_only_entry o bulk :
  only_entry (GetLendingOrderBookChannelID (Term o) (LendingToken o)) (Hash o) bulk ->
  buffered o bulk =
  {[ GetLendingOrderBookChannelID (Term o) (LendingToken o) := {[ Hash o := o ]} ]}.
Proof.
  unfold buffered. intros [->|[o' ->]].
  - rewrite lookup_empty. cbn [default]. unfold id.
    by rewrite !insert_empty.
  - rewrite lookup_singleton_eq. cbn [default]. unfold id.
    by rewrite !insert_singleton_eq.
Qed.

(** Responses of one order hash, term and lending token are all saved, and
    a buffer with at most that entry stays so. *)
Lemma saveAll_same_key (h t k : N) pre : forall w,
  (forall r, r ∈ pre ->
     exists o, res_LendingOrder r = Some o /\
               Hash o = h /\ Term o = t /\ LendingToken o = k) ->
  exists w1,
    saveAll pre w = Returned tt w1 /\
    (only_entry (GetLendingOrderBookChannelID t k) h (bulkLendingOrders w) ->
     only_entry (GetLendingOrderBookChannelID t k) h (bulkLendingOrders w1)).
Proof.
  induction pre as [|r pre IH] using rev_ind; intros w Hall.
  - exists w. split; [done|tauto].
  - destruct (IH w) as (w1 & Hrun & Hinv).
    { intros r' Hr'. apply Hall. apply elem_of_app. by left. }
    destruct (Hall r) as (o & Ho & <- & <- & <-).
    { apply elem_of_app. right. apply list_elem_of_here. }
    rewrite saveAll_snoc, Hrun. destruct r as [st ro]. cbn in Ho. subst ro.
    rewrite saveBulkLendingOrders_some. eexists. split; [reflexivity|].
    cbn [bulkLendingOrders]. intros Hw. right. exists o.
    by apply buffered_only_entry, Hinv.
Qed.

(** C7 -- After one or more [saveBulkLendingOrders] of responses with one
    order hash, one term and one lending token, the last of them carrying
    the order [o], the buffer holds under the channel of that term and
    token an entry for the hash, the only one for it, with [o]; if the
    buffer was empty before, that is all it holds.  The flush then leaves
    the buffer empty. *)
Theorem repeated_saves_keep_last d pre st o w :
  (forall r, r ∈ pre ->
     exists o', res_LendingOrder r = Some o' /\
                Hash o' = Hash o /\ Term o' = Term o /\
                LendingToken o' = LendingToken o) ->
  exists w1 orders,
    saveAll (pre ++ [{| res_Status := st; res_LendingOrder := Some o |}]) w
      = Returned tt w1 /\
    bulkLendingOrders w1 !! GetLendingOrderBookChannelID (Term o) (LendingToken o)
      = Some orders /\
    orders !! Hash o = Some o /\
    length (filter (fun e : N * LendingOrder => e.1 = Hash o) (map_to_list orders)) = 1 /\
    (bulkLendingOrders w = ∅ ->
     bulkLendingOrders w1 =
     {[ GetLendingOrderBookChannelID (Term o) (LendingToken o) := {[ Hash o := o ]} ]}) /\
    exists w2, processBulkLendingOrders d w1 = Returned tt w2 /\
               bulkLendingOrders w2 = ∅.
Proof.
  intros Hall.
  destruct (saveAll_same_key (Hash o) (Term o) (LendingToken o) pre w Hall)
    as (w0 & Hrun & Hinv).
  rewrite saveAll_snoc, Hrun, saveBulkLendingOrders_some.
  eexists. eexists. split; [reflexivity|]. cbn [bulkLendingOrders].
  split; [apply buffered_lookup|].
  split; [apply lookup_insert_eq|].
  split; [apply (one_entry_per_key _ _ o), lookup_insert_eq|].
  split.
  - intros Hempty. apply buffered_only_entry, Hinv. by left.
  - destruct (processBulkLendingOrders_run d
                {| trace := trace w0 ++ [MutexLock; MutexUnlock];
                   bulkLendingOrders := buffered o (bulkLendingOrders w0) |})
      as (body & -> & _).
    eexists. split; reflexivity.
Qed.

End AggregatorFacts.

(** ** The dispatcher and the aggregator together *)

Module PipelineFacts.
Import Properties DispatcherFacts AggregatorFacts.

(** C4 (amended) -- A response whose status matches no case of the
    dispatch table, and that carries an order, is handled without error,
    without notification, without addressed message and without log entry;
    like every response but ERROR it is put into the aggregator's buffer,
    under the channel of its term and lending token and the hash of its
    order, and the next flush broadcasts a snapshot on that channel. *)
Theorem unknown_status_is_buffered d st o w :
  st ∉ dispatch_table ->
  HandleLendingOrderResponse d {| res_Status := st; res_LendingOrder := Some o |} w =
    Returned None {| trace := trace w ++ [MutexLock; MutexUnlock];
                     bulkLendingOrders := buffered o (bulkLendingOrders w) |} /\
  (exists orders,
     buffered o (bulkLendingOrders w)
       !! GetLendingOrderBookChannelID (Term o) (LendingToken o) = Some orders /\
     orders !! Hash o = Some o) /\
  exists body book,
    processBulkLendingOrders d
      {| trace := trace w ++ [MutexLock; MutexUnlock];
         bulkLendingOrders := buffered o (bulkLendingOrders w) |} =
    Returned tt
      {| trace := (trace w ++ [MutexLock; MutexUnlock])
                    ++ MutexLock :: body ++ [MutexUnlock];
         bulkLendingOrders := ∅ |} /\
    OrderBookBroadcast (GetLendingOrderBookChannelID (Term o) (LendingToken o)) book
      ∈ body.
Proof.
  intros Hout. split; [|split].
  - apply HandleLendingOrderResponse_silent. by right.
  - eexists. split; [apply buffered_lookup|apply lookup_insert_eq].
  - destruct (processBulkLendingOrders_run d
                {| trace := trace w ++ [MutexLock; MutexUnlock];
                   bulkLendingOrders := buffered o (bulkLendingOrders w) |})
      as (body & Hrun & _ & Hbc).
    destruct (Hbc _ _ (buffered_lookup o (bulkLendingOrders w))) as [book Hb];
      [apply insert_non_empty|].
    by exists body, book.
Qed.

Lemma unknown_status_witness :
  ("LENDING_ORDER_EXPIRED" ∉ dispatch_table) /\
  trace (match HandleLendingOrderResponse quiet
                 {| res_Status := "LENDING_ORDER_EXPIRED"; res_LendingOrder := Some order1 |}
                 NewLendingOrderService with
         | Returned _ w' => w'
         | Panicked w' => w'
         end) = [MutexLock; MutexUnlock].
Proof.
  assert (H : "LENDING_ORDER_EXPIRED" ∉ dispatch_table).
  { intros Hin. repeat (apply elem_of_cons in Hin as [Hin|Hin]; [discriminate|]).
    by apply elem_of_nil in Hin. }
  split; [exact H|].
  destruct (unknown_status_is_buffered quiet "LENDING_ORDER_EXPIRED" order1
              NewLendingOrderService H) as (-> & _ & _).
  reflexivity.
Defined.

(** C4 (as stated, refuted) -- A response with a status outside the
    table is not dropped: it changes the aggregator's buffer. *)
Lemma unknown_status_not_dropped :
  ("LENDING_ORDER_EXPIRED" ∉ dispatch_table) /\
  ~ dropped_silently quiet
      {| res_Status := "LENDING_ORDER_EXPIRED"; res_LendingOrder := Some order1 |}
      NewLendingOrderService.
Proof.
  assert (H : "LENDING_ORDER_EXPIRED" ∉ dispatch_table).
  { intros Hin. repeat (apply elem_of_cons in Hin as [Hin|Hin]; [discriminate|]).
    by apply elem_of_nil in Hin. }
  split; [exact H|].
  intros (w' & evs & Hrun & _ & _ & _ & Hbulk).
  rewrite HandleLendingOrderResponse_silent in Hrun by (by right).
  injection Hrun as <-. cbn [bulkLendingOrders NewLendingOrderService] in Hbulk.
  unfold buffered in Hbulk. by apply insert_non_empty in Hbulk.
Qed.

Lemma repeated_saves_witness :
  exists w1,
    saveAll
      ([ {| res_Status := LENDING_ORDER_ADDED; res_LendingOrder := Some order1 |};
         {| res_Status := LENDING_ORDER_PARTIALLY_FILLED;
            res_LendingOrder := Some order1_partial |} ]
       ++ [ {| res_Status := LENDING_ORDER_CANCELLED;
               res_LendingOrder := Some order1_cancelled |} ])
      NewLendingOrderService = Returned tt w1 /\
    bulkLendingOrders w1 =
    {[ GetLendingOrderBookChannelID 86400 5 := {[ 1%N := order1_cancelled ]} ]}.
Proof.
  destruct (repeated_saves_keep_last quiet
              [ {| res_Status := LENDING_ORDER_ADDED; res_LendingOrder := Some order1 |};
                {| res_Status := LENDING_ORDER_PARTIALLY_FILLED;
                   res_LendingOrder := Some order1_partial |} ]
              LENDING_ORDER_CANCELLED order1_cancelled NewLendingOrderService)
    as (w1 & orders & Hrun & _ & _ & _ & Hall & _).
  - intros r Hr.
    repeat (apply elem_of_cons in Hr as [->|Hr]); [..|by apply elem_of_nil in Hr];
      eexists; repeat split; reflexivity.
  - exists w1. split; [exact Hrun|]. by apply Hall.
Defined.

End PipelineFacts.

(** ** Laws of the registry *)

Module RegistryLaws.
Import Registry Summaries RegistryFacts.

Lemma run_snoc ops o s : run (ops ++ [o]) s = step (run ops s) o.
Proof. unfold run. by rewrite foldl_app. Qed.

Lemma flag_Unsubscribe_ne ch c c' s :
  c' <> c -> flag ch c' (Unsubscribe c s) = flag ch c' s.
Proof.
  intros Hne. unfold Unsubscribe. destruct (subscriptionsList s !! c); [|done].
  rewrite flag_unsubscribe_loop. rewrite decide_False; [done|]. by intros [? _].
Qed.

Lemma flag_nil_new ch c : flag ch c NewLendingMarketsSocket = false.
Proof. unfold flag. cbn. rewrite lookup_empty. cbn. by rewrite lookup_empty. Qed.

(** The flag of a pair after any calls on a new registry. *)
Lemma flag_run ops : forall ch c,
  flag ch c (run ops NewLendingMarketsSocket) = last_subscribed ch c ops.
Proof.
  induction ops as [|o ops IH] using rev_ind; intros ch c.
  - apply flag_nil_new.
  - rewrite run_snoc. unfold last_subscribed. rewrite foldl_app. cbn [foldl].
    fold (last_subscribed ch c ops). rewrite <- IH.
    destruct o as [ch' [k|]|ch' c'|c']; cbn [step settles].
    + rewrite flag_Subscribe.
      destruct (decide (ch = ch' /\ c = Some k)) as [[-> ->]|Hne].
      * rewrite decide_True; done.
      * rewrite decide_False; [done|]. intros (-> & <- & _). by apply Hne.
    + cbn. rewrite decide_False; [done|]. intros (_ & <- & Hc). by apply Hc.
    + rewrite flag_UnsubscribeChannel.
      destruct (decide (ch = ch' /\ c = c')) as [[-> ->]|Hne].
      * by rewrite decide_True.
      * rewrite decide_False; [done|]. intros [-> ->]. by apply Hne.
    + destruct (decide (c' = c)) as [->|Hne].
      * apply flag_Unsubscribe_self, forward_listed_run, forward_listed_new.
      * apply flag_Unsubscribe_ne. congruence.
Qed.

(** X1 -- After any sequence of Subscribe, UnsubscribeChannel and
    Unsubscribe calls on a new registry, a broadcast on a channel delivers
    one message to a connection when the last call that concerns the pair
    is a Subscribe of it, and none otherwise. *)
Theorem broadcast_follows_last_call {P : Type} ops ch c (p : P) :
  deliveries ch c p (run ops NewLendingMarketsSocket) =
  if last_subscribed ch c ops then 1 else 0.
Proof. by rewrite deliveries_flag, flag_run. Qed.

(** The slice of a connection after any calls, from any registry. *)
Lemma list_run ops : forall k s,
  subscriptionsList (run ops s) !! Some k =
  match subscribed_channels (Some k) ops with
  | [] => subscriptionsList s !! Some k
  | chs => Some (default [] (subscriptionsList s !! Some k) ++ chs)
  end.
Proof.
  induction ops as [|o ops IH] using rev_ind; intros k s; [done|].
  rewrite run_snoc. unfold subscribed_channels. rewrite omap_app.
  fold (subscribed_channels (Some k) ops). cbn [omap list_omap].
  destruct o as [ch' [k'|]|ch' c'|c']; cbn [step].
  - rewrite list_Subscribe. destruct (decide (Some k' = Some k)) as [Heq|Hne].
    + injection Heq as ->. rewrite decide_True by done. rewrite IH.
      destruct (subscribed_channels (Some k) ops) as [|x chs]; cbn; [done|].
      by rewrite <- app_assoc.
    + rewrite decide_False by congruence. rewrite IH, app_nil_r. done.
  - cbn. rewrite IH, app_nil_r. done.
  - rewrite list_UnsubscribeChannel, IH, app_nil_r. done.
  - rewrite list_Unsubscribe, IH, app_nil_r. done.
Qed.

(** X2 -- After any sequence of calls on a new registry, the inverse
    index holds for a connection the channels of all its Subscribe calls,
    in call order and with repetitions; UnsubscribeChannel and Unsubscribe
    never shorten it, and a connection that never subscribed is absent. *)
Theorem inverse_index_is_subscribe_history ops k :
  subscriptionsList (run ops NewLendingMarketsSocket) !! Some k =
  match subscribed_channels (Some k) ops with
  | [] => None
  | chs => Some chs
  end.
Proof.
  rewrite list_run. cbn. rewrite lookup_empty.
  by destruct (subscribed_channels (Some k) ops).
Qed.

(** X3 -- From any registry, [Unsubscribe c] changes nothing for another
    connection: a broadcast on any channel delivers to it what it did
    before, and the inverse index is untouched. *)
Theorem unsubscribe_spares_others {P : Type} s c c' ch (p : P) :
  c' <> c ->
  deliveries ch c' p (Unsubscribe c s) = deliveries ch c' p s /\
  subscriptionsList (Unsubscribe c s) = subscriptionsList s.
Proof.
  intros Hne. split; [|apply list_Unsubscribe].
  by rewrite !deliveries_flag, flag_Unsubscribe_ne.
Qed.

Lemma unsubscribe_spares_others_witness :
  deliveries "lending" (Some 2) "snapshot"
    (Unsubscribe (Some 1)
       (run [OpSubscribe "lending" (Some 1); OpSubscribe "lending" (Some 2)]
            NewLendingMarketsSocket)) =
  deliveries "lending" (Some 2) "snapshot"
    (run [OpSubscribe "lending" (Some 1); OpSubscribe "lending" (Some 2)]
         NewLendingMarketsSocket).
Proof.
  apply (unsubscribe_spares_others
           (run [OpSubscribe "lending" (Some 1); OpSubscribe "lending" (Some 2)]
                NewLendingMarketsSocket) (Some 1) (Some 2) "lending" "snapshot").
  discriminate.
Defined.

Lemma UnsubscribeChannel_inactive ch c s :
  flag ch c s = false -> UnsubscribeChannel ch c s = s.
Proof. intros F. unfold UnsubscribeChannel. by rewrite F. Qed.

Lemma unsubscribe_loop_inactive c ids : forall s,
  (forall id, id ∈ ids -> flag id c s = false) ->
  foldl (fun acc id => UnsubscribeChannel id c acc) s ids = s.
Proof.
  induction ids as [|id ids IH]; intros s Hoff; [done|].
  cbn [foldl]. rewrite UnsubscribeChannel_inactive by apply Hoff, list_elem_of_here.
  apply IH. intros id' Hin. by apply Hoff, list_elem_of_further.
Qed.

(** X4 -- [Unsubscribe] is idempotent on the whole state of the registry,
    from any registry: a second [Unsubscribe c] changes neither index. *)
Theorem unsubscribe_idempotent s c :
  Unsubscribe c (Unsubscribe c s) = Unsubscribe c s.
Proof.
  unfold Unsubscribe at 1. rewrite list_Unsubscribe.
  destruct (subscriptionsList s !! c) as [ids|] eqn:E; [|done].
  apply unsubscribe_loop_inactive. intros id Hin.
  unfold Unsubscribe. rewrite E, flag_unsubscribe_loop. by rewrite decide_True.
Qed.

End RegistryLaws.

(** ** Laws of the dispatcher *)

Module DispatcherLaws.
Import Summaries DispatcherFacts.

(** Runs [HandleLendingOrderResponse] on a response with an order and a
    status of the table. *)
Ltac run_case A C RP TU RC TR RR CR E :=
  rewrite HandleLendingOrderResponse_tail;
  first [ rewrite A, handleLendingOrderAdded_run
        | rewrite C, handleLendingOrderCancelled_run
        | rewrite RP, handleLendingRepay_run
        | rewrite TU, handleLendingTopup_run
        | rewrite RC, handleLendingRecall_run
        | rewrite TR, handleLendingReject_run
        | rewrite RR, handleLendingReject_run
        | rewrite CR, handleLendingReject_run
        | rewrite E, handleEngineError_run
        | rewrite dispatch_silent by (left; in_trace) ];
  cbn [res_Status];
  first [ change (negb _) with true | change (negb _) with false ];
  cbv iota; rewrite ?saveBulkLendingOrders_some.

(** X5 -- Whatever the status, known or not, a response that carries an
    order ends in the aggregator's buffer unless its status is ERROR, in
    which case the buffer is left as it was; no handler touches the buffer
    and nil is returned. *)
Theorem response_buffered_unless_error d st o w :
  exists w',
    HandleLendingOrderResponse d {| res_Status := st; res_LendingOrder := Some o |} w
      = Returned None w' /\
    bulkLendingOrders w' =
      if String.eqb st ERROR_STATUS then bulkLendingOrders w
      else buffered o (bulkLendingOrders w).
Proof.
  destruct (decide (st ∈ dispatch_table)) as [Hin|Hout].
  - destruct (dispatch_cases d (Some o)) as (A & C & RP & TU & RC & TR & RR & CR & E).
    unfold dispatch_table in Hin.
    repeat (apply elem_of_cons in Hin as [->|Hin]); [..|by apply elem_of_nil in Hin];
      run_case A C RP TU RC TR RR CR E; eexists; split; reflexivity.
  - rewrite HandleLendingOrderResponse_silent by (by right).
    rewrite silent_not_error by (by right). eexists. split; reflexivity.
Qed.

(** X6 -- An ERROR response that carries an order tells the user of a
    rejection: the notification and both messages are typed
    LENDING_ORDER_REJECTED, not ERROR; the aggregator's mutex and buffer
    are not touched. *)
Theorem error_response_notifies_rejection d o w :
  HandleLendingOrderResponse d
    {| res_Status := ERROR_STATUS; res_LendingOrder := Some o |} w =
  Returned None
    {| trace := trace w ++
         NotificationCreate (notification_for o LENDING_ORDER_REJECTED)
         :: error_log (notificationDao_Create d
                         (notification_for o LENDING_ORDER_REJECTED)).2 ++
         [ SendLendingOrderMessage LENDING_ORDER_REJECTED (UserAddress o) (OrderPayload o);
           SendNotificationMessage LENDING_ORDER_REJECTED (UserAddress o)
             (notificationDao_Create d (notification_for o LENDING_ORDER_REJECTED)).1;
           LogInfo "BroadcastOrderBookUpdate lending rejected" ];
       bulkLendingOrders := bulkLendingOrders w |}.
Proof.
  destruct (dispatch_cases d (Some o)) as (_ & _ & _ & _ & _ & _ & _ & _ & E).
  rewrite HandleLendingOrderResponse_tail, E, handleEngineError_run. reflexivity.
Qed.

(** X7 -- When the notification store fails to save the notification of
    a notifying status, the error is logged and nothing else changes
    course: the notification message is still sent to the user, with
    whatever the store handed back, the response still reaches the
    aggregator, and nil is returned. *)
Theorem notification_failure_is_logged d o st ns e w :
  st ∈ notifying_statuses ->
  notificationDao_Create d (notification_for o st) = (ns, Some e) ->
  exists w' evs,
    HandleLendingOrderResponse d {| res_Status := st; res_LendingOrder := Some o |} w
      = Returned None w' /\
    trace w' = trace w ++ evs /\
    LogError e ∈ evs /\
    SendNotificationMessage st (UserAddress o) ns ∈ evs /\
    bulkLendingOrders w' = buffered o (bulkLendingOrders w).
Proof.
  intros Hin Hfail.
  destruct (dispatch_cases d (Some o)) as (A & C & RP & TU & RC & TR & RR & CR & E).
  unfold notifying_statuses in Hin.
  repeat (apply elem_of_cons in Hin as [->|Hin]); [..|by apply elem_of_nil in Hin];
    run_case A C RP TU RC TR RR CR E;
    eexists; eexists; (split; [reflexivity|]);
    cbn [trace bulkLendingOrders]; rewrite <- !app_assoc; cbn [app];
    (split; [reflexivity|]);
    change "LENDING_ORDER_CANCELLED" with LENDING_ORDER_CANCELLED;
    rewrite Hfail; cbn [fst snd error_log app];
    (split; [in_trace|]); (split; [in_trace|reflexivity]).
Qed.

Lemma notification_failure_witness :
  exists w' evs,
    HandleLendingOrderResponse refusing
      {| res_Status := LENDING_ORDER_ADDED; res_LendingOrder := Some order1 |}
      NewLendingOrderService = Returned None w' /\
    trace w' = trace NewLendingOrderService ++ evs /\
    LogError "notification not saved" ∈ evs /\
    SendNotificationMessage LENDING_ORDER_ADDED (UserAddress order1) [] ∈ evs /\
    bulkLendingOrders w' = buffered order1 (bulkLendingOrders NewLendingOrderService).
Proof.
  apply (notification_failure_is_logged refusing order1 LENDING_ORDER_ADDED []
           "notification not saved" NewLendingOrderService).
  - unfold notifying_statuses. in_trace.
  - reflexivity.
Defined.

(** X8 -- For REPAYED, TOPUPED and RECALLED the handler ends by looking
    up the trade under the order's hash and sending it to the order's user
    in a message typed with the status; what the lookup returns is sent as
    it is, nil included, and its error is ignored. *)
Theorem settlement_sends_trade d o st w :
  st ∈ settlement_statuses ->
  exists w' before,
    HandleLendingOrderResponse d {| res_Status := st; res_LendingOrder := Some o |} w
      = Returned None w' /\
    trace w' = trace w ++ before ++
      [ LendingTradeGetByHash (Hash o);
        SendLendingOrderMessage st (UserAddress o)
          (TradePayload (lendingTradeDao_GetByHash d (Hash o)));
        MutexLock; MutexUnlock ].
Proof.
  intros Hin.
  destruct (dispatch_cases d (Some o)) as (A & C & RP & TU & RC & TR & RR & CR & E).
  unfold settlement_statuses in Hin.
  repeat (apply elem_of_cons in Hin as [->|Hin]); [..|by apply elem_of_nil in Hin];
    run_case A C RP TU RC TR RR CR E; eexists;
    [ exists (NotificationCreate (notification_for o LENDING_ORDER_REPAYED)
              :: error_log (notificationDao_Create d
                              (notification_for o LENDING_ORDER_REPAYED)).2 ++
              [SendNotificationMessage LENDING_ORDER_REPAYED (UserAddress o)
                 (notificationDao_Create d (notification_for o LENDING_ORDER_REPAYED)).1])
    | exists (NotificationCreate (notification_for o LENDING_ORDER_TOPUPED)
              :: error_log (notificationDao_Create d
                              (notification_for o LENDING_ORDER_TOPUPED)).2 ++
              [SendNotificationMessage LENDING_ORDER_TOPUPED (UserAddress o)
                 (notificationDao_Create d (notification_for o LENDING_ORDER_TOPUPED)).1])
    | exists (SendLendingOrderMessage LENDING_ORDER_RECALLED (UserAddress o) (OrderPayload o)
              :: NotificationCreate (notification_for o LENDING_ORDER_RECALLED)
              :: error_log (notificationDao_Create d
                              (notification_for o LENDING_ORDER_RECALLED)).2 ++
              [SendNotificationMessage LENDING_ORDER_RECALLED (UserAddress o)
                 (notificationDao_Create d (notification_for o LENDING_ORDER_RECALLED)).1]) ];
    (split; [reflexivity|]); cbn [trace];
    repeat (rewrite <- ?app_assoc; cbn [app]); reflexivity.
Qed.

Lemma settlement_sends_trade_witness :
  exists w' before,
    HandleLendingOrderResponse quiet
      {| res_Status := LENDING_ORDER_TOPUPED; res_LendingOrder := Some order1 |}
      NewLendingOrderService = Returned None w' /\
    trace w' = trace NewLendingOrderService ++ before ++
      [ LendingTradeGetByHash (Hash order1);
        SendLendingOrderMessage LENDING_ORDER_TOPUPED (UserAddress order1)
          (TradePayload (lendingTradeDao_GetByHash quiet (Hash order1)));
        MutexLock; MutexUnlock ].
Proof.
  apply (settlement_sends_trade quiet order1 LENDING_ORDER_TOPUPED NewLendingOrderService).
  unfold settlement_statuses. in_trace.
Defined.

(** Membership in a trace whose elements are all written out. *)
Ltac absent Hin :=
  repeat (apply elem_of_cons in Hin as [Hin|Hin]; [discriminate Hin|]);
  by apply elem_of_nil in Hin.

(** X9 -- Handling a response that carries an order looks up a trade only
    for REPAYED, TOPUPED and RECALLED, and then only under the hash of that
    order; for every other status, known or not, no trade is read. *)
Theorem trade_read_only_on_settlement d st o w :
  exists w' evs,
    HandleLendingOrderResponse d {| res_Status := st; res_LendingOrder := Some o |} w
      = Returned None w' /\
    trace w' = trace w ++ evs /\
    forall h, LendingTradeGetByHash h ∈ evs <->
              h = Hash o /\ st ∈ settlement_statuses.
Proof.
  destruct (decide (st ∈ dispatch_table)) as [Hin|Hout].
  - destruct (dispatch_cases d (Some o)) as (A & C & RP & TU & RC & TR & RR & CR & E).
    unfold dispatch_table in Hin.
    repeat (apply elem_of_cons in Hin as [->|Hin]); [..|by apply elem_of_nil in Hin];
      run_case A C RP TU RC TR RR CR E;
      eexists; eexists; (split; [reflexivity|]);
      cbn [trace]; repeat (rewrite <- ?app_assoc; cbn [app]);
      (split; [reflexivity|]);
      intros h;
      try destruct (notificationDao_Create d _) as [ns [e|]];
      cbn [fst snd error_log app];
      (split;
       [ intros Hh;
         repeat (apply elem_of_cons in Hh as [Hh|Hh];
                 [first [discriminate Hh
                        | injection Hh as ->; split;
                          [reflexivity|unfold settlement_statuses; in_trace]]|]);
         by apply elem_of_nil in Hh
       | intros [-> Hs]; unfold settlement_statuses in Hs;
         first [ in_trace
               | repeat (apply elem_of_cons in Hs as [Hs|Hs]; [discriminate Hs|]);
                 by apply elem_of_nil in Hs ] ]).
  - rewrite HandleLendingOrderResponse_silent by (by right).
    eexists. eexists. split; [reflexivity|]. cbn [trace]. split; [reflexivity|].
    intros h. split.
    + intros Hh. absent Hh.
    + intros [_ Hs]. exfalso. apply Hout.
      unfold settlement_statuses in Hs. unfold dispatch_table.
      repeat (apply elem_of_cons in Hs as [->|Hs]); [..|by apply elem_of_nil in Hs];
        in_trace.
Qed.

End DispatcherLaws.

(** ** Laws of the watcher and of the broker glue *)

Module GlueLaws.
Import Summaries.

(** X10 -- Whatever the document type string, a change event whose full
    document is nil, or whose storage status has no line in the table
    (an unknown or empty status, or REJECTED seen under a document type
    that is none of the four), publishes nothing, logs nothing and returns
    nil. *)
Theorem unmapped_document_is_dropped d ev docType w :
  (FullDocument ev = None \/
   exists doc, FullDocument ev = Some doc /\
               status_table (Status doc) docType = None) ->
  HandleDocumentType d ev docType w = Returned None w.
Proof.
  intros [Hnil|(doc & Hdoc & Htab)]; unfold HandleDocumentType.
  - by rewrite Hnil.
  - rewrite Hdoc. remember (Status doc) as s eqn:Hs. clear Hs.
    unfold status_table, assoc in Htab. simpl in Htab. revert Htab.
    unfold LendingStatusOpen, LendingStatusCancelled, LendingStatusFilled,
      LendingStatusPartialFilled, LendingStatusRepay, LendingStatusTopup,
      LendingStatusRecall, LendingStatusRejected,
      LENDING_EVENT, REPAY_EVENT, TOPUP_EVENT, RECALL_EVENT.
    repeat match goal with
           | |- context [String.eqb s ?c] =>
               destruct (String.eqb_spec s c) as [->|?]
           end;
      repeat match goal with
             | |- context [String.eqb docType ?c] =>
                 destruct (String.eqb_spec docType c) as [->|?]
             end;
      simpl; intros Htab; first [discriminate Htab | reflexivity].
Qed.

Lemma unmapped_document_witness :
  HandleDocumentType quiet
    {| OperationType := "update"; FullDocument := Some rejected_topup |}
    "TRADE" NewLendingOrderService = Returned None NewLendingOrderService.
Proof.
  apply (unmapped_document_is_dropped quiet
           {| OperationType := "update"; FullDocument := Some rejected_topup |}
           "TRADE" NewLendingOrderService).
  right. exists rejected_topup. split; reflexivity.
Defined.

(** X11 -- A NEW_LENDING_ORDER message whose payload decodes makes one
    storage call, [AddNewLendingOrder] of the decoded order, and a
    CANCEL_LENDING_ORDER message one [CancelLendingOrder]; what storage
    returns is returned to the caller, an error being logged once. *)
Theorem decoded_message_is_applied d msg o w :
  json_Unmarshal d (msg_Data msg) = inr o ->
  (msg_Type msg = "NEW_LENDING_ORDER" ->
   HandleLendingOrdersCreateCancel d msg w =
   Returned (lendingDao_AddNewLendingOrder d o)
     {| trace := trace w ++ AddNewLendingOrder o
                   :: error_log (lendingDao_AddNewLendingOrder d o);
        bulkLendingOrders := bulkLendingOrders w |}) /\
  (msg_Type msg = "CANCEL_LENDING_ORDER" ->
   HandleLendingOrdersCreateCancel d msg w =
   Returned (lendingDao_CancelLendingOrder d o)
     {| trace := trace w ++ CancelLendingOrder o
                   :: error_log (lendingDao_CancelLendingOrder d o);
        bulkLendingOrders := bulkLendingOrders w |}).
Proof.
  intros Hdec. destruct w as [tr bulk]. unfold HandleLendingOrdersCreateCancel.
  split; intros Hty; rewrite Hty; simpl;
    unfold handleNewLendingOrder, handleCancelLendingOrder;
    cbv [mbind mret M_bind M_ret emit]; rewrite Hdec;
    cbn [trace bulkLendingOrders].
  - destruct (lendingDao_AddNewLendingOrder d o); cbn;
      rewrite <- ?app_assoc; reflexivity.
  - destruct (lendingDao_CancelLendingOrder d o); cbn;
      rewrite <- ?app_assoc; reflexivity.
Qed.

Lemma decoded_message_witness :
  HandleLendingOrdersCreateCancel refusing
    {| msg_Type := "CANCEL_LENDING_ORDER"; msg_Data := "{}" |} NewLendingOrderService =
  Returned (Some "order not found")
    {| trace := [CancelLendingOrder order1; LogError "order not found"];
       bulkLendingOrders := ∅ |}.
Proof.
  apply (proj2 (decoded_message_is_applied refusing
                  {| msg_Type := "CANCEL_LENDING_ORDER"; msg_Data := "{}" |}
                  order1 NewLendingOrderService eq_refl)).
  reflexivity.
Defined.

End GlueLaws.

(** ** Laws of the bulk aggregator *)

Module AggregatorLaws.
Import Summaries DispatcherFacts AggregatorFacts.

(** X12 -- Saving a response that carries an order makes that order the
    pending one of its channel and hash, replacing any earlier one, and
    leaves the pending order of every other channel or hash as it was. *)
Theorem save_replaces_one_entry st o w id h :
  exists w',
    saveBulkLendingOrders {| res_Status := st; res_LendingOrder := Some o |} w
      = Returned None w' /\
    pending_order id h (bulkLendingOrders w') =
      if decide (id = GetLendingOrderBookChannelID (Term o) (LendingToken o)
                 /\ h = Hash o)
      then Some o
      else pending_order id h (bulkLendingOrders w).
Proof.
  rewrite saveBulkLendingOrders_some. eexists. split; [reflexivity|].
  cbn [bulkLendingOrders]. unfold pending_order, buffered.
  destruct (decide (id = GetLendingOrderBookChannelID (Term o) (LendingToken o)))
    as [->|Hid].
  - rewrite lookup_insert_eq. cbn.
    destruct (decide (h = Hash o)) as [->|Hh].
    + rewrite lookup_insert_eq. by rewrite decide_True.
    + rewrite lookup_insert_ne by done. rewrite decide_False by tauto.
      destruct (bulkLendingOrders w !! _); [done|]. cbn. apply lookup_empty.
  - rewrite lookup_insert_ne by done. rewrite decide_False by tauto. done.
Qed.

Section Snapshots.
Variable d : Collaborators.

Lemma processOrder_exact acc o w :
  processOrder d acc o w =
  Returned
    (if String.eqb (Side o) BORROW
     then (acc.1 ++ [update_of d o], acc.2)
     else (acc.1, acc.2 ++ [update_of d o]))
    {| trace := trace w ++
         GetLendingOrderBookInterest (Term o) (LendingToken o) (Interest o) (Side o)
         :: error_log (lendingDao_GetLendingOrderBookInterest d
                         (Term o) (LendingToken o) (Interest o) (Side o)).2;
       bulkLendingOrders := bulkLendingOrders w |}.
Proof.
  destruct w as [tr bulk]. unfold processOrder, update_of.
  cbv [mbind mret M_bind M_ret emit log_if_error]. cbn [trace bulkLendingOrders].
  destruct (lendingDao_GetLendingOrderBookInterest d _ _ _ _) as [[a|] [e|]];
    cbn [fst snd error_log trace bulkLendingOrders default];
    destruct (String.eqb (Side o) BORROW); rewrite <- ?app_assoc; reflexivity.
Qed.

(** The inner loop: the two lists grow by the entries of the orders of
    each side, and only lookups and their error logs happen. *)
Lemma orders_exact l : forall acc w,
  exists body,
    forM (processOrder d) acc l w =
    Returned
      (acc.1 ++ (update_of d <$> filter (fun o => Side o = BORROW) l),
       acc.2 ++ (update_of d <$> filter (fun o => Side o <> BORROW) l))
      {| trace := trace w ++ body; bulkLendingOrders := bulkLendingOrders w |} /\
    forall p book, OrderBookBroadcast p book ∉ body.
Proof.
  induction l as [|o l IH]; intros acc w.
  - exists []. destruct w, acc. cbn. rewrite !app_nil_r. split; [done|].
    intros p book Hin. by apply elem_of_nil in Hin.
  - cbn [forM]. cbv [mbind M_bind]. rewrite processOrder_exact.
    destruct (IH (if String.eqb (Side o) BORROW
                  then (acc.1 ++ [update_of d o], acc.2)
                  else (acc.1, acc.2 ++ [update_of d o]))
                 {| trace := trace w ++
                      GetLendingOrderBookInterest (Term o) (LendingToken o)
                        (Interest o) (Side o)
                      :: error_log (lendingDao_GetLendingOrderBookInterest d
                                      (Term o) (LendingToken o) (Interest o) (Side o)).2;
                    bulkLendingOrders := bulkLendingOrders w |})
      as (body & -> & Hnb).
    eexists. cbn [trace bulkLendingOrders]. rewrite <- app_assoc. split.
    + f_equal. destruct (String.eqb_spec (Side o) BORROW) as [Hb|Hb]; cbn [fst snd].
      * rewrite (filter_cons_True (fun o => Side o = BORROW)) by done.
        rewrite (filter_cons_False (fun o => Side o <> BORROW)) by tauto.
        rewrite fmap_cons, <- app_assoc. done.
      * rewrite (filter_cons_False (fun o => Side o = BORROW)) by done.
        rewrite (filter_cons_True (fun o => Side o <> BORROW)) by done.
        rewrite fmap_cons, <- app_assoc. done.
    + intros p book Hin. cbn [app] in Hin.
      apply elem_of_cons in Hin as [Hin|Hin]; [discriminate Hin|].
      apply elem_of_app in Hin as [Hin|Hin]; [|by apply (Hnb p book)].
      destruct (lendingDao_GetLendingOrderBookInterest d _ _ _ _) as [a [e|]];
        cbn in Hin.
      * apply elem_of_cons in Hin as [Hin|Hin]; [discriminate Hin|].
        by apply elem_of_nil in Hin.
      * by apply elem_of_nil in Hin.
Qed.

Lemma processChannel_exact p orders w :
  exists body,
    processChannel d tt (p, orders) w =
    Returned tt {| trace := trace w ++ body;
                   bulkLendingOrders := bulkLendingOrders w |} /\
    forall p' book, OrderBookBroadcast p' book ∈ body <->
                    p' = p /\ orders <> ∅ /\ book = snapshot d p orders.
Proof.
  unfold processChannel.
  destruct (size orders <=? 0)%nat eqn:Hsize.
  - exists []. destruct w. cbn. rewrite app_nil_r. split; [done|].
    intros p' book. split.
    + intros Hin. by apply elem_of_nil in Hin.
    + intros (_ & Hne & _). apply Nat.leb_le in Hsize.
      assert (size orders = 0) as Hz by lia. by apply map_size_empty_iff in Hz.
  - cbv [mbind M_bind].
    destruct (orders_exact (map_to_list orders).*2 ([], []) w) as (body & -> & Hnb).
    cbv [emit]. cbn [trace bulkLendingOrders fst snd app].
    eexists. rewrite <- app_assoc. split; [reflexivity|].
    intros p' book. split.
    + intros Hin. apply elem_of_app in Hin as [Hin|Hin]; [by apply Hnb in Hin|].
      apply elem_of_cons in Hin as [Hin|Hin]; [|by apply elem_of_nil in Hin].
      injection Hin as -> ->. split; [done|]. split; [|done].
      intros ->. by rewrite map_size_empty in Hsize.
    + intros (-> & _ & ->). apply elem_of_app. right. apply list_elem_of_here.
Qed.

Lemma channels_exact l : forall w,
  exists body,
    forM (processChannel d) tt l w =
    Returned tt {| trace := trace w ++ body;
                   bulkLendingOrders := bulkLendingOrders w |} /\
    forall p book, OrderBookBroadcast p book ∈ body <->
                   exists orders, (p, orders) ∈ l /\ orders <> ∅ /\
                                  book = snapshot d p orders.
Proof.
  induction l as [|[p orders] l IH]; intros w.
  - exists []. destruct w. cbn. rewrite app_nil_r. split; [done|].
    intros p book. split.
    + intros Hin. by apply elem_of_nil in Hin.
    + intros (orders & Hin & _). by apply elem_of_nil in Hin.
  - cbn [forM]. cbv [mbind M_bind].
    destruct (processChannel_exact p orders w) as (body1 & -> & H1).
    destruct (IH {| trace := trace w ++ body1;
                    bulkLendingOrders := bulkLendingOrders w |})
      as (body2 & -> & H2).
    exists (body1 ++ body2). cbn [trace bulkLendingOrders].
    rewrite <- app_assoc. split; [done|].
    intros p' book. rewrite elem_of_app, H1, H2. split.
    + intros [(-> & Hne & ->)|(orders' & Hin & Hne & ->)].
      * exists orders. split; [apply list_elem_of_here|done].
      * exists orders'. split; [by apply list_elem_of_further|done].
    + intros (orders' & Hin & Hne & ->).
      apply elem_of_cons in Hin as [Heq|Hin].
      * injection Heq as -> ->. by left.
      * right. by exists orders'.
Qed.

(** The flush, with what it broadcasts. *)
Lemma flush_exact w :
  exists body,
    processBulkLendingOrders d w =
    Returned tt {| trace := trace w ++ MutexLock :: body ++ [MutexUnlock];
                   bulkLendingOrders := ∅ |} /\
    forall p book, OrderBookBroadcast p book ∈ body <->
                   exists orders, bulkLendingOrders w !! p = Some orders /\
                                  orders <> ∅ /\ book = snapshot d p orders.
Proof.
  unfold processBulkLendingOrders. cbv [mbind M_bind emit get_bulk set_bulk].
  cbn [trace bulkLendingOrders].
  destruct (channels_exact (map_to_list (bulkLendingOrders w))
              {| trace := trace w ++ [MutexLock];
                 bulkLendingOrders := bulkLendingOrders w |})
    as (body & -> & Hb).
  exists body. cbn [trace bulkLendingOrders]. rewrite <- !app_assoc.
  split; [done|]. intros p book. rewrite Hb.
  split; intros (orders & Hin & Hrest); exists orders;
    (split; [by apply elem_of_map_to_list|done]).
Qed.

Lemma no_broadcast_channels (l : list Event) :
  (forall p book, OrderBookBroadcast p book ∉ l) -> broadcast_channels l = [].
Proof.
  induction l as [|e l IH]; intros Hnb; [done|].
  assert (IH' : broadcast_channels l = []).
  { apply IH. intros p book Hin. apply (Hnb p book). by apply list_elem_of_further. }
  unfold broadcast_channels in *. cbn [omap list_omap].
  destruct e; cbn; try exact IH'.
  exfalso. eapply Hnb. apply list_elem_of_here.
Qed.

Lemma broadcast_channels_app l1 l2 :
  broadcast_channels (l1 ++ l2) = broadcast_channels l1 ++ broadcast_channels l2.
Proof. unfold broadcast_channels. apply omap_app. Qed.

(** One turn of the outer loop broadcasts once, or not at all. *)
Lemma processChannel_channels p orders w :
  exists body,
    processChannel d tt (p, orders) w =
    Returned tt {| trace := trace w ++ body;
                   bulkLendingOrders := bulkLendingOrders w |} /\
    broadcast_channels body = if (size orders <=? 0)%nat then [] else [p].
Proof.
  unfold processChannel.
  destruct (size orders <=? 0)%nat eqn:Hsize.
  - exists []. destruct w. cbn. by rewrite app_nil_r.
  - cbv [mbind M_bind].
    destruct (orders_exact (map_to_list orders).*2 ([], []) w) as (body & -> & Hnb).
    cbv [emit]. cbn [trace bulkLendingOrders fst snd app].
    eexists. rewrite <- app_assoc. split; [reflexivity|].
    rewrite broadcast_channels_app, (no_broadcast_channels body Hnb). reflexivity.
Qed.

Lemma channels_channels l : forall w,
  exists body,
    forM (processChannel d) tt l w =
    Returned tt {| trace := trace w ++ body;
                   bulkLendingOrders := bulkLendingOrders w |} /\
    broadcast_channels body =
    (filter (fun kv : string * gmap N LendingOrder => size kv.2 <> 0) l).*1.
Proof.
  induction l as [|[p orders] l IH]; intros w.
  - exists []. destruct w. cbn. by rewrite app_nil_r.
  - cbn [forM]. cbv [mbind M_bind].
    destruct (processChannel_channels p orders w) as (body1 & -> & H1).
    destruct (IH {| trace := trace w ++ body1;
                    bulkLendingOrders := bulkLendingOrders w |})
      as (body2 & -> & H2).
    exists (body1 ++ body2). cbn [trace bulkLendingOrders].
    rewrite <- app_assoc. split; [done|].
    rewrite broadcast_channels_app, H1, H2.
    destruct (size orders <=? 0)%nat eqn:Hsize.
    + apply Nat.leb_le in Hsize.
      rewrite filter_cons_False by (cbn; lia). done.
    + apply Nat.leb_gt in Hsize.
      rewrite filter_cons_True by (cbn; lia). done.
Qed.

(** The flush broadcasts once per channel that has a pending order. *)
Lemma flush_channels w :
  exists body,
    processBulkLendingOrders d w =
    Returned tt {| trace := trace w ++ MutexLock :: body ++ [MutexUnlock];
                   bulkLendingOrders := ∅ |} /\
    broadcast_channels body =
    (filter (fun kv : string * gmap N LendingOrder => size kv.2 <> 0)
            (map_to_list (bulkLendingOrders w))).*1.
Proof.
  unfold processBulkLendingOrders. cbv [mbind M_bind emit get_bulk set_bulk].
  cbn [trace bulkLendingOrders].
  destruct (channels_channels (map_to_list (bulkLendingOrders w))
              {| trace := trace w ++ [MutexLock];
                 bulkLendingOrders := bulkLendingOrders w |})
    as (body & -> & Hc).
  exists body. cbn [trace bulkLendingOrders]. rewrite <- !app_assoc.
  split; done.
Qed.

End Snapshots.

(** X13 -- A flush broadcasts once on each channel of the buffer that
    has at least one pending order, and on no other channel; each
    broadcast is a snapshot of its channel: named after it, the borrow list
    holding the entries of the pending BORROW orders and the lend list
    those of all other orders, in whatever order, each entry being the
    order's interest in decimal and the volume storage reports (0 when it
    reports none).  The flush returns with the buffer empty. *)
Theorem flush_broadcasts_snapshots d w :
  exists body,
    processBulkLendingOrders d w =
    Returned tt {| trace := trace w ++ MutexLock :: body ++ [MutexUnlock];
                   bulkLendingOrders := ∅ |} /\
    NoDup (broadcast_channels body) /\
    (forall p, p ∈ broadcast_channels body <->
               exists orders, bulkLendingOrders w !! p = Some orders /\
                              orders <> ∅) /\
    (forall p book, OrderBookBroadcast p book ∈ body ->
       exists orders, bulkLendingOrders w !! p = Some orders /\
                      orders <> ∅ /\ is_snapshot_of d p orders book).
Proof.
  destruct (flush_exact d w) as (body & Hrun & Hb).
  destruct (flush_channels d w) as (body' & Hrun' & Hc).
  rewrite Hrun in Hrun'. injection Hrun' as Heq.
  apply app_inv_head in Heq. injection Heq as Heq.
  apply app_inv_tail in Heq. subst body'.
  exists body. split; [exact Hrun|]. split; [|split].
  - rewrite Hc.
    apply (sublist_NoDup _ (map_to_list (bulkLendingOrders w)).*1);
      [apply NoDup_fst_map_to_list|apply fmap_sublist, sublist_filter].
  - intros p. rewrite Hc, list_elem_of_fmap. split.
    + intros ([p' orders] & -> & Hin).
      apply list_elem_of_filter in Hin as [Hsz Hin]. cbn in Hsz.
      exists orders. split; [by apply elem_of_map_to_list|].
      intros ->. apply Hsz, map_size_empty.
    + intros (orders & Hl & Hne). exists (p, orders). split; [done|].
      apply list_elem_of_filter. split; [|by apply elem_of_map_to_list].
      cbn. intros Hz. by apply map_size_empty_iff in Hz.
  - intros p book Hin. apply Hb in Hin as (orders & Hl & Hne & ->).
    exists orders. split; [done|]. split; [done|]. by repeat split.
Qed.

(** X14 -- A flush that follows a flush finds the buffer empty: it takes
    and releases the mutex and does nothing else, no lookup and no
    broadcast, whatever the collaborators. *)
Theorem second_flush_is_idle d d' w :
  exists w1,
    processBulkLendingOrders d w = Returned tt w1 /\
    processBulkLendingOrders d' w1 =
    Returned tt {| trace := trace w1 ++ [MutexLock; MutexUnlock];
                   bulkLendingOrders := ∅ |}.
Proof.
  destruct (processBulkLendingOrders_run d w) as (body & -> & _).
  eexists. split; [reflexivity|].
  unfold processBulkLendingOrders. cbv [mbind M_bind emit get_bulk set_bulk].
  cbn [trace bulkLendingOrders]. rewrite map_to_list_empty. cbn.
  by rewrite <- !app_assoc.
Qed.

End AggregatorLaws.

(** ** From a stored order to its snapshot, and the submission of orders *)

Module PipelineLaws.
Import Summaries DispatcherFacts AggregatorFacts AggregatorLaws Submission.

(** A pending order has its entry on its side of the snapshot. *)
Lemma pending_in_snapshot d p (orders : gmap N LendingOrder) h o :
  orders !! h = Some o ->
  update_of d o ∈ (if String.eqb (Side o) BORROW
                   then Borrow (snapshot d p orders)
                   else Lend (snapshot d p orders)).
Proof.
  intros Hh.
  assert (Hin : o ∈ (map_to_list orders).*2).
  { apply list_elem_of_fmap. exists (h, o). split; [done|].
    by apply elem_of_map_to_list. }
  unfold snapshot. destruct (String.eqb_spec (Side o) BORROW) as [Hb|Hb];
    cbn [Borrow Lend]; apply list_elem_of_fmap_2, list_elem_of_filter; done.
Qed.

(** X15 -- A document that storage holds as OPEN, seen by any watcher,
    is published as an ADDED response; that response, handled, puts the
    order in the buffer; and the next flush broadcasts on the channel of
    the order's term and lending token a snapshot that has the order's
    entry in its borrow list when the side is BORROW and in its lend list
    otherwise. *)
Theorem open_order_reaches_snapshot d op doc docType w :
  Status doc = LendingStatusOpen ->
  exists w1 w2 body book,
    HandleDocumentType d {| OperationType := op; FullDocument := Some doc |} docType w
      = Returned (broker_PublishLendingOrderResponse d
                    {| res_Status := LENDING_ORDER_ADDED;
                       res_LendingOrder := Some doc |}) w1 /\
    PublishLendingOrderResponse
      {| res_Status := LENDING_ORDER_ADDED; res_LendingOrder := Some doc |}
      ∈ trace w1 /\
    HandleLendingOrderResponse d
      {| res_Status := LENDING_ORDER_ADDED; res_LendingOrder := Some doc |} w1
      = Returned None w2 /\
    processBulkLendingOrders d w2 =
      Returned tt {| trace := trace w2 ++ MutexLock :: body ++ [MutexUnlock];
                     bulkLendingOrders := ∅ |} /\
    OrderBookBroadcast
      (GetLendingOrderBookChannelID (Term doc) (LendingToken doc)) book ∈ body /\
    update_of d doc ∈ (if String.eqb (Side doc) BORROW
                       then Borrow book else Lend book).
Proof.
  intros Hopen.
  assert (Hwatch : exists w1,
    HandleDocumentType d {| OperationType := op; FullDocument := Some doc |} docType w
      = Returned (broker_PublishLendingOrderResponse d
                    {| res_Status := LENDING_ORDER_ADDED;
                       res_LendingOrder := Some doc |}) w1 /\
    PublishLendingOrderResponse
      {| res_Status := LENDING_ORDER_ADDED; res_LendingOrder := Some doc |}
      ∈ trace w1).
  { unfold HandleDocumentType. cbn [FullDocument]. rewrite Hopen.
    destruct w as [tr bulk]. simpl.
    cbv [mbind mret M_bind M_ret emit]. cbn [trace bulkLendingOrders].
    destruct (broker_PublishLendingOrderResponse d _); eexists;
      (split; [reflexivity|]); cbn [trace]; in_trace. }
  destruct Hwatch as (w1 & Hrun1 & Hpub).
  destruct (dispatch_cases d (Some doc)) as (A & _).
  destruct (flush_exact d
              {| trace := (trace w1 ++
                   SendLendingOrderMessage LENDING_ORDER_ADDED (UserAddress doc)
                     (OrderPayload doc)
                   :: NotificationCreate (notification_for doc LENDING_ORDER_ADDED)
                   :: error_log (notificationDao_Create d
                                   (notification_for doc LENDING_ORDER_ADDED)).2 ++
                   [ SendNotificationMessage LENDING_ORDER_ADDED (UserAddress doc)
                       (notificationDao_Create d
                          (notification_for doc LENDING_ORDER_ADDED)).1;
                     LogInfo "BroadcastOrderBookUpdate Lending Added" ])
                   ++ [MutexLock; MutexUnlock];
                 bulkLendingOrders := buffered doc (bulkLendingOrders w1) |})
    as (body & Hflush & Hbody).
  exists w1. eexists. exists body. eexists.
  split; [exact Hrun1|]. split; [exact Hpub|]. split.
  { rewrite HandleLendingOrderResponse_tail, A, handleLendingOrderAdded_run.
    cbn [res_Status]. change (negb _) with true. cbv iota.
    rewrite saveBulkLendingOrders_some. reflexivity. }
  split; [exact Hflush|]. split.
  - apply Hbody. eexists. split; [apply buffered_lookup|].
    split; [apply insert_non_empty|reflexivity].
  - apply (pending_in_snapshot d _ _ (Hash doc)), lookup_insert_eq.
Qed.

Lemma open_order_reaches_snapshot_witness :
  exists w1 w2 body book,
    HandleDocumentType quiet
      {| OperationType := "insert"; FullDocument := Some order1 |}
      LENDING_EVENT NewLendingOrderService
      = Returned (broker_PublishLendingOrderResponse quiet
                    {| res_Status := LENDING_ORDER_ADDED;
                       res_LendingOrder := Some order1 |}) w1 /\
    PublishLendingOrderResponse
      {| res_Status := LENDING_ORDER_ADDED; res_LendingOrder := Some order1 |}
      ∈ trace w1 /\
    HandleLendingOrderResponse quiet
      {| res_Status := LENDING_ORDER_ADDED; res_LendingOrder := Some order1 |} w1
      = Returned None w2 /\
    processBulkLendingOrders quiet w2 =
      Returned tt {| trace := trace w2 ++ MutexLock :: body ++ [MutexUnlock];
                     bulkLendingOrders := ∅ |} /\
    OrderBookBroadcast
      (GetLendingOrderBookChannelID (Term order1) (LendingToken order1)) book ∈ body /\
    update_of quiet order1 ∈ (if String.eqb (Side order1) BORROW
                              then Borrow book else Lend book).
Proof.
  exact (open_order_reaches_snapshot quiet "insert" order1 LENDING_EVENT
           NewLendingOrderService eq_refl).
Defined.

(** X16 -- [NewLendingOrder] hands the order to the broker exactly when
    the order validates, its signature is accepted and, for a limit order,
    the balance validator agrees; for another order type the balance is
    not consulted.  It returns nil exactly when, besides, the broker
    accepts the message. *)
Theorem order_published_iff_checks_pass k o :
  (PublishLendingOrderMessage o ∈ (NewLendingOrder k o).1 <-> checks_pass k o) /\
  ((NewLendingOrder k o).2 = None <->
   checks_pass k o /\ broker_PublishLendingOrderMessage k o = None) /\
  (o_isLimitOrder k o = false -> ValidateBalance o ∉ (NewLendingOrder k o).1).
Proof.
  unfold NewLendingOrder, checks_pass.
  destruct (o_Validate k o) as [ev|] eqn:Hv.
  { cbn. split; [|split].
    - split; [intros Hin|intros [Hc _]; discriminate Hc].
      apply elem_of_cons in Hin as [Hin|Hin]; [discriminate Hin|].
      by apply elem_of_nil in Hin.
    - split; [discriminate|intros [[Hc _] _]; discriminate Hc].
    - intros _ Hin. apply elem_of_cons in Hin as [Hin|Hin]; [discriminate Hin|].
      by apply elem_of_nil in Hin. }
  destruct (o_VerifySignature k o) as [ok es] eqn:Hs. cbn [fst snd].
  destruct ok; cbn [negb].
  2:{ cbn. split; [|split].
      - split; [intros Hin|intros (_ & Hc & _); discriminate Hc].
        destruct es; cbn in Hin;
          repeat (apply elem_of_cons in Hin as [Hin|Hin]; [discriminate Hin|]);
          by apply elem_of_nil in Hin.
      - split; [discriminate|intros [(_ & Hc & _) _]; discriminate Hc].
      - intros _ Hin. destruct es; cbn in Hin;
          repeat (apply elem_of_cons in Hin as [Hin|Hin]; [discriminate Hin|]);
          by apply elem_of_nil in Hin. }
  destruct (o_isLimitOrder k o) eqn:Hl; cbn [fst snd];
    destruct (validator_ValidateAvailablLendingBalance k o) as [eb|] eqn:Hb;
    destruct (broker_PublishLendingOrderMessage k o) as [ep|] eqn:Hp;
    destruct es; cbn;
    (split; [|split]);
    try (split; [intros Hin|intros Hc]);
    try (intros Hf Hin);
    try discriminate;
    try (repeat (apply elem_of_cons in Hin as [Hin|Hin]; [discriminate Hin|]);
         by apply elem_of_nil in Hin);
    try (destruct Hc as (_ & _ & Hc); specialize (Hc eq_refl); discriminate Hc);
    try (destruct Hc as [(_ & _ & Hc) _]; specialize (Hc eq_refl); discriminate Hc);
    try (destruct Hc as [_ Hc]; discriminate Hc);
    try (repeat split; try done; in_trace);
    try in_trace.
Qed.

(** X17 -- When the signature is not accepted the caller gets the error
    Invalid Signature whatever error the verification itself reported (that
    one is only logged), and neither the balance validator nor the broker
    is called; an error reported along with an accepted signature is logged
    and does not stop the submission. *)
Theorem signature_verdict_decides k o :
  o_Validate k o = None ->
  ((o_VerifySignature k o).1 = false ->
   (NewLendingOrder k o).2 = Some "Invalid Signature" /\
   (ValidateBalance o ∉ (NewLendingOrder k o).1) /\
   (PublishLendingOrderMessage o ∉ (NewLendingOrder k o).1)) /\
  (forall e, o_VerifySignature k o = (true, Some e) ->
   SubmitLogError e ∈ (NewLendingOrder k o).1 /\
   (NewLendingOrder k o).2 =
     if o_isLimitOrder k o
     then match validator_ValidateAvailablLendingBalance k o with
          | Some eb => Some eb
          | None => broker_PublishLendingOrderMessage k o
          end
     else broker_PublishLendingOrderMessage k o).
Proof.
  intros Hv. unfold NewLendingOrder. rewrite Hv. split.
  - destruct (o_VerifySignature k o) as [ok es]. cbn [fst]. intros ->. cbn.
    split; [done|].
    split; intros Hin; destruct es; cbn in Hin;
      repeat (apply elem_of_cons in Hin as [Hin|Hin]; [discriminate Hin|]);
      by apply elem_of_nil in Hin.
  - intros e ->. cbn [negb].
    destruct (o_isLimitOrder k o); cbn [fst snd];
      destruct (validator_ValidateAvailablLendingBalance k o);
      destruct (broker_PublishLendingOrderMessage k o); cbn;
      (split; [apply list_elem_of_here|reflexivity]).
Qed.

Lemma signature_verdict_witness :
  (NewLendingOrder strict order1).2 = Some "Invalid Signature" /\
  (NewLendingOrder lenient order1).2 = None.
Proof.
  destruct (signature_verdict_decides strict order1 eq_refl) as [Hs _].
  destruct (signature_verdict_decides lenient order1 eq_refl) as [_ Hl].
  split.
  - apply Hs. reflexivity.
  - apply (Hl "recovery id out of range"). reflexivity.
Defined.

End PipelineLaws.
